(** * Pose-stream processing core of [PoseDetection.tsx]

    A shallow embedding of the per-frame pipeline of the [PoseDetection]
    component (client/src/components/camera/PoseDetection.tsx): keypoint
    smoothing ([smoothPoseMovement]), the posture score computed inside
    [detect], and the repetition trigger ([detectRepMovement]).

    Numbers.  A JavaScript number is modelled by [JS.number]: an exact
    rational, one of the two infinities, or NaN.  Arithmetic follows
    ECMAScript on these three classes (0/0 is NaN, x/0 is an infinity,
    every comparison with NaN is false); the rounding of binary64 and the
    sign of zero are abstracted: finite results are exact.  What is stated
    over this model is what rounding preserves: ranges, orderings, and
    equalities between the same operations.  Where the rounding itself
    decides a result, the score is evaluated on doubles ([Binary64]).

    Effects.  The component's mutable cells ([previousPoseRef],
    [smoothingFactorRef], the [repCount] state) are threaded explicitly
    through [detect]; the callbacks it invokes are collected in a trace;
    [Math.random()] is an oracle whose draw is an input of the frame; a
    [TypeError] raised by reading a property of [undefined] is an explicit
    completion.  Frames are processed one after the other: the effect that
    owns the loop lists [repCount] among its dependencies, so the closure
    that handles a frame reads the count left by the frame before it. *)

From Stdlib Require Import QArith Qround ZArith Lia Lqa Bool.
From Stdlib Require PrimFloat FloatOps SpecFloat Uint63.
From stdpp Require Import base option list strings.

(** ** JavaScript numbers *)

Module JS.

Local Open Scope Q_scope.

Inductive number : Type :=
| NaN
| Infinity (negative : bool)
| Num (q : Q).

Definition of_nat (n : nat) : number := Num (inject_Z (Z.of_nat n)).
Definition of_Z (z : Z) : number := Num (inject_Z z).

(** [a + b] *)
Definition add (a b : number) : number :=
  match a, b with
  | NaN, _ | _, NaN => NaN
  | Infinity s, Infinity t => if Bool.eqb s t then Infinity s else NaN
  | Infinity s, Num _ | Num _, Infinity s => Infinity s
  | Num p, Num q => Num (p + q)
  end.

(** [- a] *)
Definition neg (a : number) : number :=
  match a with
  | NaN => NaN
  | Infinity s => Infinity (negb s)
  | Num q => Num (- q)
  end.

(** [a - b] *)
Definition sub (a b : number) : number := add a (neg b).

(** The infinity that an infinity of sign [s] becomes when scaled by the
    finite factor [q]; scaling by zero is NaN. *)
Definition scale_inf (s : bool) (q : Q) : number :=
  match q ?= 0 with
  | Eq => NaN
  | Lt => Infinity (negb s)
  | Gt => Infinity s
  end.

(** [a * b] *)
Definition mul (a b : number) : number :=
  match a, b with
  | NaN, _ | _, NaN => NaN
  | Infinity s, Infinity t => Infinity (xorb s t)
  | Infinity s, Num q | Num q, Infinity s => scale_inf s q
  | Num p, Num q => Num (p * q)
  end.

(** [a / b]; a zero divisor is the positive zero. *)
Definition div (a b : number) : number :=
  match a, b with
  | NaN, _ | _, NaN => NaN
  | Infinity _, Infinity _ => NaN
  | Infinity s, Num q =>
      match q ?= 0 with Lt => Infinity (negb s) | _ => Infinity s end
  | Num _, Infinity _ => Num 0
  | Num p, Num q =>
      match q ?= 0 with
      | Eq => match p ?= 0 with
              | Eq => NaN
              | Lt => Infinity true
              | Gt => Infinity false
              end
      | _ => Num (p / q)
      end
  end.

Definition Qltb (p q : Q) : bool := negb (Qle_bool q p).

(** [a < b] *)
Definition lt (a b : number) : bool :=
  match a, b with
  | NaN, _ | _, NaN => false
  | Infinity s, Infinity t => s && negb t
  | Infinity s, Num _ => s
  | Num _, Infinity t => negb t
  | Num p, Num q => Qltb p q
  end.

(** [a > b] *)
Definition gt (a b : number) : bool := lt b a.


(** [Math.round(a)]: the integer nearest to [a], ties towards +Infinity. *)
Definition Math_round (a : number) : number :=
  match a with
  | Num q => Num (inject_Z (Qfloor (q + (1 # 2))))
  | _ => a
  end.

Definition finite (a : number) : Prop :=
  match a with Num _ => True | _ => False end.

(** Same numeric value: rationals are compared by [Qeq]. *)
Definition same (a b : number) : Prop :=
  match a, b with
  | NaN, NaN => True
  | Infinity s, Infinity t => s = t
  | Num p, Num q => p == q
  | _, _ => False
  end.

(** What a failed property read of [undefined] raises. *)
Inductive exception : Type := TypeError.

(** Completion of a statement list: normal with a value, or abrupt. *)
Inductive completion (A : Type) : Type :=
| Normal (a : A)
| Throw (e : exception).
Arguments Normal {A} a.
Arguments Throw {A} e.

End JS.

Import JS.

Arguments JS.lt : simpl never.
Arguments JS.gt : simpl never.

Declare Scope js_scope.
Delimit Scope js_scope with js.
Bind Scope js_scope with number.
Notation "a + b" := (JS.add a b) : js_scope.
Notation "a - b" := (JS.sub a b) : js_scope.
Notation "a * b" := (JS.mul a b) : js_scope.
Notation "a / b" := (JS.div a b) : js_scope.
Notation "a >? b" := (JS.gt a b) (at level 70, no associativity) : js_scope.
Notation "a <? b" := (JS.lt a b) (at level 70, no associativity) : js_scope.

(** ** Data: the pose-detection library's [Keypoint] and [Pose] *)

(** [score] is optional in the library's type; an absent score behaves as
    NaN in both places the component reads it (a comparison with it is
    false, a sum with it is NaN), so NaN stands for it here. *)
Record Keypoint : Type := mkKeypoint {
  x : number;
  y : number;
  score : number;
  name : string
}.

Record Pose : Type := mkPose {
  keypoints : list Keypoint;
  pose_score : number
}.

(** ** [smoothPoseMovement] (lines 99-119) *)

(** The callback of [currentPose.keypoints.map((kp, index) => ...)]. *)
Definition smoothKeypoint (smoothingFactor : number) (previousPose : Pose)
    (index : nat) (kp : Keypoint) : Keypoint :=
  match keypoints previousPose !! index with
  | Some prevKp =>
      if (score kp >? Num (3 # 10))%js && (score prevKp >? Num (3 # 10))%js
      then {| x := (x prevKp * smoothingFactor
                    + x kp * (Num 1 - smoothingFactor))%js;
              y := (y prevKp * smoothingFactor
                    + y kp * (Num 1 - smoothingFactor))%js;
              score := score kp;
              name := name kp |}
      else kp
  | None => kp
  end.

Definition smoothPoseMovement (smoothingFactor : number)
    (currentPose : Pose) (previousPose : option Pose) : Pose :=
  match previousPose with
  | None => currentPose
  | Some previousPose =>
      {| keypoints :=
           imap (smoothKeypoint smoothingFactor previousPose)
                (keypoints currentPose);
         pose_score := pose_score currentPose |}
  end.

(** ** The posture score computed in [detect] (lines 76-77) *)

(** [currentPose.keypoints.reduce((sum, kp) => sum + kp.score, 0)
     / currentPose.keypoints.length] *)
Definition averageConfidence (currentPose : Pose) : number :=
  (fold_left (fun sum kp => sum + score kp) (keypoints currentPose) (Num 0)
   / JS.of_nat (length (keypoints currentPose)))%js.

(** [Math.round(averageConfidence * 100)] *)
Definition postureScore (currentPose : Pose) : number :=
  Math_round (averageConfidence currentPose * Num 100)%js.

(** ** The component: mutable cells and callbacks *)

Record Component : Type := mkComponent {
  previousPoseRef : option Pose;
  smoothingFactorRef : number;
  repCount : Z
}.

(** [useRef(null)], [useRef(0.7)], [useState(0)] *)
Definition mount : Component :=
  {| previousPoseRef := None;
     smoothingFactorRef := Num (7 # 10);
     repCount := 0 |}.

(** What a frame does that is visible outside the component: the call
    [drawPose(ctx, smoothedPose)] with the pose it is given, and the two
    callbacks of the props. *)
Inductive Callback : Type :=
| draws (smoothedPose : Pose)
| onPostureUpdate (score : number)
| onRepCount (count : Z).

(** ** [detectRepMovement] (lines 122-138)

    [random] is the value [Math.random()] returns when the body reaches
    it.  Reading [.score] of a missing wrist raises [TypeError]. *)
Definition detectRepMovement (repCount : Z) (pose : Pose) (random : number)
    : completion (Z * list Callback) :=
  match keypoints pose !! 10%nat with
  | None => Throw TypeError
  | Some rightWrist =>
      if (score rightWrist >? Num (1 # 2))%js then
        match keypoints pose !! 9%nat with
        | None => Throw TypeError
        | Some leftWrist =>
            if (score leftWrist >? Num (1 # 2))%js then
              let avgY := ((y rightWrist + y leftWrist) / Num 2)%js in
              if (random <? Num (15 # 1000))%js then
                let newCount := (repCount + 1)%Z in
                Normal (newCount, [onRepCount newCount])
              else Normal (repCount, [])
            else Normal (repCount, [])
        end
      else Normal (repCount, [])
  end.

(** What one animation frame supplies: the result of
    [detector.estimatePoses(video)] and the oracle's draw. *)
Record Frame : Type := mkFrame {
  poses : list Pose;
  random : number
}.

Section Detect.

(** [poseDetection.util.getAdjacentPairs(SupportedModels.MoveNet)]: a table
    of the pose-detection library. *)
Variable adjacentPairs : list (nat * nat).

(** ** [drawPose] (lines 140-206)

    Only its completion is modelled: the skeleton loop reads [kp1.score]
    and, when that exceeds 0.3, [kp2.score]; either read raises when the
    keypoint is missing.  Nothing else in [drawPose] can raise. *)
Fixpoint drawSkeleton (keypoints : list Keypoint) (pairs : list (nat * nat))
    : completion unit :=
  match pairs with
  | [] => Normal tt
  | (i, j) :: rest =>
      match keypoints !! i with
      | None => Throw TypeError
      | Some kp1 =>
          if (score kp1 >? Num (3 # 10))%js then
            match keypoints !! j with
            | None => Throw TypeError
            | Some kp2 => drawSkeleton keypoints rest
            end
          else drawSkeleton keypoints rest
      end
  end.

Definition drawPose (pose : Pose) : completion unit :=
  drawSkeleton (keypoints pose) adjacentPairs.

(** ** [detect] (lines 53-85), from the result of [estimatePoses] on

    Returns the component after the frame, the calls made in order, and
    how the body completed.  Assignments made before a [TypeError] persist. *)
Definition detect (c : Component) (f : Frame)
    : Component * list Callback * completion unit :=
  match poses f with
  | [] => (c, [], Normal tt)
  | currentPose :: _ =>
      let smoothedPose :=
        smoothPoseMovement (smoothingFactorRef c) currentPose
                           (previousPoseRef c) in
      let c1 := {| previousPoseRef := Some currentPose;
                   smoothingFactorRef := smoothingFactorRef c;
                   repCount := repCount c |} in
      match drawPose smoothedPose with
      | Throw e => (c1, [draws smoothedPose], Throw e)
      | Normal _ =>
          let posture := onPostureUpdate (postureScore currentPose) in
          match detectRepMovement (repCount c1) currentPose (random f) with
          | Throw e => (c1, [draws smoothedPose; posture], Throw e)
          | Normal (newCount, calls) =>
              ({| previousPoseRef := Some currentPose;
                  smoothingFactorRef := smoothingFactorRef c;
                  repCount := newCount |},
               draws smoothedPose :: posture :: calls, Normal tt)
          end
      end
  end.

(** The animation loop: [requestAnimationFrame(detect)] is reached only
    when the body completes normally, so a [TypeError] ends the loop.
    Every frame is handled here by the closure that holds the count the
    frame before left; the schedule in which the closure of the older
    render handles one more frame before the effect is re-created is not
    part of this function. *)
Fixpoint run (c : Component) (frames : list Frame)
    : Component * list Callback * completion unit :=
  match frames with
  | [] => (c, [], Normal tt)
  | f :: rest =>
      match detect c f with
      | (c', calls, Normal _) =>
          let '(c'', calls', r) := run c' rest in (c'', calls ++ calls', r)
      | (c', calls, Throw e) => (c', calls, Throw e)
      end
  end.

End Detect.

(** The table the library publishes for MoveNet (17 COCO keypoints). *)
Definition MoveNet_adjacentPairs : list (nat * nat) :=
  [(0, 1); (0, 2); (1, 3); (2, 4); (5, 6); (5, 7); (5, 11); (6, 8);
   (6, 12); (7, 9); (8, 10); (11, 12); (11, 13); (12, 14); (13, 15);
   (14, 16)]%nat.

(** ** Observations on a run *)

(** The counts passed to [onRepCount], in order. *)
Definition repEvents (calls : list Callback) : list Z :=
  omap (fun call => match call with onRepCount n => Some n | _ => None end)
       calls.

(** The poses handed to [drawPose], in order: the smoother's outputs. *)
Definition smoothedPoses (calls : list Callback) : list Pose :=
  omap (fun call => match call with draws p => Some p | _ => None end) calls.

(** The scores passed to [onPostureUpdate], in order. *)
Definition postureUpdates (calls : list Callback) : list number :=
  omap (fun call => match call with onPostureUpdate s => Some s | _ => None
                    end) calls.

(** The confidence gate of [detectRepMovement] (line 127) as a test on the
    frame: both wrists present and above 0.5. *)
Definition wristsConfident (f : Frame) : bool :=
  match poses f with
  | [] => false
  | pose :: _ =>
      match keypoints pose !! 10%nat, keypoints pose !! 9%nat with
      | Some rightWrist, Some leftWrist =>
          (score rightWrist >? Num (1 # 2))%js
          && (score leftWrist >? Num (1 # 2))%js
      | _, _ => false
      end
  end.

(** The value [avgY] of line 129: the mean height of the two wrists. *)
Definition avgY (pose : Pose) : option number :=
  match keypoints pose !! 10%nat, keypoints pose !! 9%nat with
  | Some rightWrist, Some leftWrist =>
      Some ((y rightWrist + y leftWrist) / Num 2)%js
  | _, _ => None
  end.

(** ** Reference definitions, written from the specification's words *)

Module Spec.

Local Open Scope Q_scope.

(** *** KeypointSmoother (section 4.1) *)

Definition minConfidence : number := Num (3 # 10).

(** [previous * α + current * (1 - α)] *)
Definition blend (α previous current : number) : number :=
  (previous * α + current * (Num 1 - α))%js.

Definition confident (kp : Keypoint) : bool :=
  (score kp >? minConfidence)%js.

(** Index by index: blend x and y when both confidences exceed the
    threshold, otherwise pass the current keypoint through; the confidence
    is always the current one. *)
Fixpoint smoothKeypoints (α : number) (current previous : list Keypoint)
    : list Keypoint :=
  match current with
  | [] => []
  | kp :: current' =>
      match previous with
      | [] => kp :: smoothKeypoints α current' []
      | prevKp :: previous' =>
          (if confident kp && confident prevKp
           then {| x := blend α (x prevKp) (x kp);
                   y := blend α (y prevKp) (y kp);
                   score := score kp;
                   name := name kp |}
           else kp)
          :: smoothKeypoints α current' previous'
      end
  end.

Definition SmoothingState : Type := option Pose.

(** [smooth(current, state)]: the output pose and the updated state. *)
Definition smooth (α : number) (current : Pose) (state : SmoothingState)
    : Pose * SmoothingState :=
  match state with
  | None => (current, Some current)
  | Some previous =>
      ({| keypoints :=
            smoothKeypoints α (keypoints current) (keypoints previous);
          pose_score := pose_score current |},
       Some current)
  end.

(** *** PostureScorer (section 4.2) *)

Definition mean (confidences : list Q) : Q :=
  fold_right Qplus 0 confidences / inject_Z (Z.of_nat (length confidences)).

(** Nearest integer, halves upwards. *)
Definition round (q : Q) : Z := Qfloor (q + (1 # 2)).

(** round(mean(confidence over all keypoints) × 100) *)
Definition score (confidences : list Q) : Z := round (mean confidences * 100).

(** *** RepCounter (section 4.3): the hysteresis band *)

(** A trajectory value strictly between the lower and the upper threshold
    crosses neither of them. *)
Definition inBand (lower upper : Q) (v : number) : bool :=
  (Num lower <? v)%js && (v <? Num upper)%js.

End Spec.

(** *** SessionAggregator (section 4.4) *)

Module SessionAggregator.

Local Open Scope Q_scope.

Inductive Error : Type := ContractViolation.

(** Modelled from the spec: the output record of section 6 (the shape of
    the persisted exercise session); accuracy and posture score may be
    absent. *)
Record ExerciseSessionMetrics : Type := mkMetrics {
  exerciseType : string;
  duration : Z;
  reps : Z;
  accuracy : option Q;
  postureScore : option Q;
  notes : string
}.

(** Modelled from the spec: the running state of section 4.4; the
    component's sources hold no aggregator. *)
Record Aggregator : Type := mkAggregator {
  sessionType : string;
  sessionNotes : string;
  firstTimestamp : option Z;
  frameCount : nat;
  meanPosture : Q;
  repTotal : Z;
  closed : bool
}.

Section Aggregator.

(** The specification gives the accuracy of an empty session (absent) and
    its range, not how it is derived from the frames of a session that has
    some: that derivation is left open here. *)
Variable accuracyOf : Aggregator -> Q.

(** Modelled from the spec: the state a session starts in; no aggregator
    exists in the component's sources. *)
Definition start (exerciseType notes : string) : Aggregator :=
  {| sessionType := exerciseType;
     sessionNotes := notes;
     firstTimestamp := None;
     frameCount := 0%nat;
     meanPosture := 0;
     repTotal := 0%Z;
     closed := false |}.

(** Modelled from the spec: [onFrame(pose, postureScore, repEventOccurred,
    timestamp)] of section 4.4, absent from the sources: incremental mean
    of the posture score, rep count mirrored from the rep events, rejected
    once the aggregator is closed. *)
Definition onFrame (a : Aggregator) (pose : Pose) (postureScore : Q)
    (repEventOccurred : bool) (timestamp : Z) : Aggregator + Error :=
  if closed a then inr ContractViolation
  else
    let n := S (frameCount a) in
    inl {| sessionType := sessionType a;
           sessionNotes := sessionNotes a;
           firstTimestamp :=
             Some (match firstTimestamp a with
                   | Some t0 => t0
                   | None => timestamp
                   end);
           frameCount := n;
           meanPosture :=
             meanPosture a
             + (postureScore - meanPosture a) / inject_Z (Z.of_nat n);
           repTotal := if repEventOccurred then (repTotal a + 1)%Z
                       else repTotal a;
           closed := false |}.

(** Modelled from the spec: [finalize()] of section 4.4, absent from the
    sources: duration from the first frame to the call (0 without frames),
    the mirrored rep count, accuracy and posture score absent without
    frames; the aggregator is closed afterwards. *)
Definition finalize (a : Aggregator) (timestamp : Z)
    : (ExerciseSessionMetrics * Aggregator) + Error :=
  if closed a then inr ContractViolation
  else
    let present := negb (Nat.eqb (frameCount a) 0) in
    inl ({| exerciseType := sessionType a;
            duration := match firstTimestamp a with
                        | Some t0 => (timestamp - t0)%Z
                        | None => 0%Z
                        end;
            reps := repTotal a;
            accuracy := if present then Some (accuracyOf a) else None;
            postureScore := if present then Some (meanPosture a) else None;
            notes := sessionNotes a |},
         {| sessionType := sessionType a;
            sessionNotes := sessionNotes a;
            firstTimestamp := firstTimestamp a;
            frameCount := frameCount a;
            meanPosture := meanPosture a;
            repTotal := repTotal a;
            closed := true |}).

End Aggregator.

End SessionAggregator.

(** ** Sample frames *)

Definition kpAt (px py confidence : Q) : Keypoint :=
  {| x := Num px; y := Num py; score := Num confidence; name := "" |}.

(** A pose of [n] keypoints, all at the same place and confidence. *)
Definition still (px py confidence : Q) (n : nat) : Pose :=
  {| keypoints := replicate n (kpAt px py confidence);
     pose_score := Num confidence |}.

Definition frameOf (pose : Pose) (draw : Q) : Frame :=
  {| poses := [pose]; random := Num draw |}.

(** The first pose of every frame that has one: the poses [detect]
    processes, in order. *)
Definition firstPoses (frames : list Frame) : list Pose :=
  omap (fun f => head (poses f)) frames.


(** How many frames pass the confidence gate of [detectRepMovement]. *)
Definition gatedFrames (frames : list Frame) : nat :=
  length (List.filter wristsConfident frames).



(** The confidences of a pose are the finite values [qs]. *)
Definition confidences (pose : Pose) (qs : list Q) : Prop :=
  score <$> keypoints pose = Num <$> qs.

(** Two poses put every keypoint at the same place. *)
Definition samePlace (a b : Pose) : Prop :=
  Forall2 (fun k1 k2 => JS.same (x k1) (x k2) /\ JS.same (y k1) (y k2))
          (keypoints a) (keypoints b).

(** Three frames of 17 confident keypoints moving from 0 to 10 to 20. *)
Definition movingFrames : list Frame :=
  [frameOf (still 0 0 (9 # 10) 17) (1 # 2);
   frameOf (still 10 10 (9 # 10) 17) (1 # 2);
   frameOf (still 20 20 (9 # 10) 17) (1 # 2)].

(** A pose held still with both wrists at height 50, under the given
    draws of [Math.random()]. *)
Definition heldFrames (draws : list Q) : list Frame :=
  frameOf (still 100 50 (9 # 10) 17) <$> draws.

(** ** [drawPose] (lines 140-206): the calls it makes on the canvas *)

(** [Math.max(a, b)] *)
Definition Math_max (a b : number) : number :=
  match a, b with
  | NaN, _ | _, NaN => NaN
  | _, _ => if (a <? b)%js then b else a
  end.

Module Canvas.

(** A colour written as [rgba(r, g, b, a)]; where the source interpolates
    a number into the template string the number is kept as it is. *)
Record rgba : Type := mkRgba {
  red : Z;
  green : Z;
  blue : Z;
  opacity : number
}.

(** The two labels [drawPose] writes: the status line and the line with
    the rep count interpolated. *)
Inductive label : Type :=
| tracking
| repetitions (repCount : Z).

(** Assignments to and calls on the 2D context, in program order.  [arc]
    is always the full circle from 0 to 2π. *)
Inductive call : Type :=
| strokeStyle (colour : rgba)
| fillStyle (colour : rgba)
| lineWidth (width : Z)
| font (family : string)
| beginPath
| moveTo (x y : number)
| lineTo (x y : number)
| arc (x y radius : number)
| stroke
| fill
| strokeText (text : label) (x y : Z)
| fillText (text : label) (x y : Z).

End Canvas.

(** The body of the skeleton loop for one pair whose two keypoints are
    above 0.3 (lines 149-163). *)
Definition drawBone (kp1 kp2 : Keypoint) : list Canvas.call :=
  let avgScore := ((score kp1 + score kp2) / Num 2)%js in
  let alpha := Math_max (Num (4 # 10)) avgScore in
  [Canvas.strokeStyle
     (if (avgScore >? Num (6 # 10))%js
      then Canvas.mkRgba 0 255 0 alpha
      else Canvas.mkRgba 255 255 0 alpha);
   Canvas.lineWidth 3;
   Canvas.beginPath;
   Canvas.moveTo (x kp1) (y kp1);
   Canvas.lineTo (x kp2) (y kp2);
   Canvas.stroke].

(** [adjacentPairs.forEach(([i, j]) => ...)] (lines 145-165): the calls
    made and how the loop completes; calls made before a failed read
    stay on the canvas. *)
Fixpoint drawBones (keypoints : list Keypoint) (pairs : list (nat * nat))
    : list Canvas.call * completion unit :=
  match pairs with
  | [] => ([], Normal tt)
  | (i, j) :: rest =>
      match keypoints !! i with
      | None => ([], Throw TypeError)
      | Some kp1 =>
          if (score kp1 >? Num (3 # 10))%js then
            match keypoints !! j with
            | None => ([], Throw TypeError)
            | Some kp2 =>
                if (score kp2 >? Num (3 # 10))%js then
                  let '(calls, r) := drawBones keypoints rest in
                  (drawBone kp1 kp2 ++ calls, r)
                else drawBones keypoints rest
            end
          else drawBones keypoints rest
      end
  end.

(** The body of [keypoints.forEach((kp, index) => ...)] (lines 168-190). *)
Definition drawJoint (index : nat) (kp : Keypoint) : list Canvas.call :=
  if (score kp >? Num (3 # 10))%js then
    let radius := (Num 3 + score kp * Num 4)%js in
    [Canvas.fillStyle
       (if (index <=? 4)%nat then Canvas.mkRgba 255 0 255 (score kp)
        else if (index <=? 10)%nat then Canvas.mkRgba 0 255 255 (score kp)
        else Canvas.mkRgba 255 255 0 (score kp));
     Canvas.beginPath;
     Canvas.arc (x kp) (y kp) radius;
     Canvas.fill;
     Canvas.strokeStyle (Canvas.mkRgba 255 255 255 (Num (8 # 10)));
     Canvas.lineWidth 1;
     Canvas.stroke]
  else [].

(** The status text (lines 193-205); [repCount] is the count the
    component holds when the frame is drawn. *)
Definition drawStatus (repCount : Z) : list Canvas.call :=
  [Canvas.font "16px Inter, sans-serif";
   Canvas.fillStyle (Canvas.mkRgba 255 255 255 (Num (9 # 10)));
   Canvas.strokeStyle (Canvas.mkRgba 0 0 0 (Num (7 # 10)));
   Canvas.lineWidth 1;
   Canvas.strokeText Canvas.tracking 20 30;
   Canvas.fillText Canvas.tracking 20 30]
  ++ (if (0 <? repCount)%Z
      then [Canvas.strokeText (Canvas.repetitions repCount) 20 55;
            Canvas.fillText (Canvas.repetitions repCount) 20 55]
      else []).

(** [drawPose] with its canvas calls. *)
Definition drawPoseCalls (adjacentPairs : list (nat * nat)) (repCount : Z)
    (pose : Pose) : list Canvas.call * completion unit :=
  match drawBones (keypoints pose) adjacentPairs with
  | (bones, Throw e) => (bones, Throw e)
  | (bones, Normal _) =>
      (bones
       ++ mjoin (imap drawJoint (keypoints pose))
       ++ drawStatus repCount,
       Normal tt)
  end.

(** The circles of a canvas trace: centre and radius of every [arc]. *)
Definition arcs (calls : list Canvas.call) : list (number * number * number) :=
  omap (fun call => match call with
                    | Canvas.arc cx cy radius => Some (cx, cy, radius)
                    | _ => None
                    end) calls.

(** The points a canvas trace starts or ends a line at. *)
Definition lineEnds (calls : list Canvas.call) : list (number * number) :=
  omap (fun call => match call with
                    | Canvas.moveTo px py | Canvas.lineTo px py =>
                        Some (px, py)
                    | _ => None
                    end) calls.

(** The rep counts a canvas trace writes out. *)
Definition repLabels (calls : list Canvas.call) : list Z :=
  omap (fun call => match call with
                    | Canvas.fillText (Canvas.repetitions n) _ _ => Some n
                    | _ => None
                    end) calls.

(** ** The component of src/unnamed/part_002

    The second [PoseDetection] component of the repository, with the same
    props: it draws the raw pose, reports a fixed posture score and counts
    on the draw of [Math.random()] alone. *)

Module Simple.

(** The skeleton loop of its [drawPose] (lines 99-109); only the
    completion is modelled, as for the other component. *)
Fixpoint drawSkeleton (keypoints : list Keypoint) (pairs : list (nat * nat))
    : completion unit :=
  match pairs with
  | [] => Normal tt
  | (i, j) :: rest =>
      match keypoints !! i with
      | None => Throw TypeError
      | Some kp1 =>
          if (score kp1 >? Num (4 # 10))%js then
            match keypoints !! j with
            | None => Throw TypeError
            | Some kp2 => drawSkeleton keypoints rest
            end
          else drawSkeleton keypoints rest
      end
  end.

Definition drawPose (adjacentPairs : list (nat * nat)) (pose : Pose)
    : completion unit :=
  drawSkeleton (keypoints pose) adjacentPairs.

(** [detect] (lines 51-79), from the result of [estimatePoses] on; the
    state is the [repCount] of [useState(0)]. *)
Definition detect (adjacentPairs : list (nat * nat)) (repCount : Z)
    (f : Frame) : Z * list Callback * completion unit :=
  match poses f with
  | [] => (repCount, [], Normal tt)
  | pose :: _ =>
      match drawPose adjacentPairs pose with
      | Throw e => (repCount, [draws pose], Throw e)
      | Normal _ =>
          if (random f <? Num (2 # 100))%js then
            let newCount := (repCount + 1)%Z in
            (newCount,
             [draws pose; onPostureUpdate (Num 100); onRepCount newCount],
             Normal tt)
          else (repCount, [draws pose; onPostureUpdate (Num 100)], Normal tt)
      end
  end.

(** The loop, under the same schedule as [run] of the other component. *)
Fixpoint run (adjacentPairs : list (nat * nat)) (repCount : Z)
    (frames : list Frame) : Z * list Callback * completion unit :=
  match frames with
  | [] => (repCount, [], Normal tt)
  | f :: rest =>
      match detect adjacentPairs repCount f with
      | (n, calls, Normal _) =>
          let '(n', calls', r) := run adjacentPairs n rest in
          (n', calls ++ calls', r)
      | (n, calls, Throw e) => (n, calls, Throw e)
      end
  end.

(** The frames on which this component counts: a pose is present and the
    draw is below 0.02. *)
Definition counted (f : Frame) : bool :=
  match poses f with
  | [] => false
  | _ :: _ => (random f <? Num (2 # 100))%js
  end.

End Simple.

(** ** [PosePage] (client/src/hooks/useAuth.ts, lines 176-211)

    The page keeps what the callbacks deliver: [onPostureUpdate] is
    [setPosture] and [onRepCount] is [setRepCount]. *)

Module PosePage.

Record State : Type := mkState {
  posture : number;
  repCount : Z
}.

(** [useState(0)] twice. *)
Definition initial : State := {| posture := Num 0; repCount := 0 |}.

Definition deliver (s : State) (call : Callback) : State :=
  match call with
  | draws _ => s
  | onPostureUpdate score => {| posture := score; repCount := repCount s |}
  | onRepCount count => {| posture := posture s; repCount := count |}
  end.

(** The page after the calls of a run. *)
Definition after (calls : list Callback) : State :=
  foldl deliver initial calls.

End PosePage.

(** ** What travels between the client and the server *)

Module Http.

(** The user as the server sends it: id, email and the two names. *)
Record PublicUser : Type := mkPublicUser {
  id : Z;
  email : string;
  firstName : option string;
  lastName : option string
}.

(** A JSON body of the user routes: a user, or [{ message }]. *)
Inductive Body : Type :=
| userBody (user : PublicUser)
| messageBody (message : string).

(** [res.status(status).json(body)]; [res.json(body)] is status 200. *)
Record Reply : Type := mkReply {
  status : Z;
  body : Body
}.

(** [response.ok] of the Fetch API: a status from 200 to 299. *)
Definition ok (r : Reply) : bool :=
  (200 <=? status r)%Z && (status r <=? 299)%Z.

End Http.

(** ** [authMiddleware] (server/auth.ts, lines 116-136) and the route
    [GET /api/user] (lines 154-171) *)

Module Server.

(** [authHeader.substring(n)] *)
Definition substringFrom (n : nat) (s : string) : string :=
  String.substring n (String.length s - n) s.

(** A row of the users table, as far as the middleware reads it. *)
Record User : Type := mkUser {
  id : Z;
  email : string;
  password : string;
  firstName : option string;
  lastName : option string
}.

(** What [storage.getUser] resolves to, or that it rejected. *)
Inductive Fetched : Type :=
| found (user : User)
| missing
| failed.

(** [req.user] *)
Record Principal : Type := mkPrincipal {
  principal_id : Z;
  principal_email : string
}.

(** How the middleware leaves the request: handed on with [req.user] set,
    or answered with [res.status(..).json({ message })]. *)
Inductive Outcome : Type :=
| next (user : Principal)
| respond (status : Z) (message : string).

Section Middleware.

(** [process.env.JWT_SECRET || "your-secret-key-here"] *)
Variable JWT_SECRET : string.

(** [jwt.verify(token, secret)] of the jsonwebtoken library: the [userId]
    of the decoded payload, or nothing when it throws. *)
Variable jwt_verify : string -> string -> option Z.

(** [storage.getUser(id)] of the storage module. *)
Variable getUser : Z -> Fetched.

(** [authorization] is [req.headers.authorization], absent or a string;
    [next()] is taken to return. *)
Definition authMiddleware (authorization : option string) : Outcome :=
  match authorization with
  | None => respond 401 "No token provided"
  | Some authHeader =>
      if String.eqb authHeader "" || negb (String.prefix "Bearer " authHeader)
      then respond 401 "No token provided"
      else
        let token := substringFrom 7 authHeader in
        match jwt_verify token JWT_SECRET with
        | None => respond 401 "Invalid token"
        | Some userId =>
            match getUser userId with
            | failed => respond 401 "Invalid token"
            | missing => respond 401 "User not found"
            | found user =>
                next {| principal_id := id user;
                        principal_email := email user |}
            end
        end
  end.

(** The handler's own [storage.getUser(userId)], which reads the store a
    second time, after the middleware. *)
Variable getUserAgain : Z -> Fetched.

(** [app.get('/api/user', authMiddleware, handler)]: the reply to a
    request with the given Authorization header. *)
Definition getUserRoute (authorization : option string) : Http.Reply :=
  match authMiddleware authorization with
  | respond status message =>
      {| Http.status := status; Http.body := Http.messageBody message |}
  | next principal =>
      match getUserAgain (principal_id principal) with
      | failed =>
          {| Http.status := 500;
             Http.body := Http.messageBody "Failed to fetch user" |}
      | missing =>
          {| Http.status := 404;
             Http.body := Http.messageBody "User not found" |}
      | found user =>
          {| Http.status := 200;
             Http.body :=
               Http.userBody {| Http.id := id user;
                                Http.email := email user;
                                Http.firstName := firstName user;
                                Http.lastName := lastName user |} |}
      end
  end.

End Middleware.

End Server.

(** ** [AuthProvider] (client/src/hooks/useAuth.ts, lines 35-165) *)

Module AuthProvider.

Record LoginResponse : Type := mkLoginResponse {
  user : Http.PublicUser;
  token : string
}.

(** The provider's own cells: the ['token'] item of [localStorage] and
    the [token] state.  The [['user']] entry of the query cache belongs to
    the query library and is not modelled. *)
Record State : Type := mkState {
  localStorage_token : option string;
  tokenState : option string
}.

(** [useState(localStorage.getItem('token'))] *)
Definition mount (stored : option string) : State :=
  {| localStorage_token := stored; tokenState := stored |}.

(** The header of line 47. *)
Definition authorizationHeader (token : string) : string :=
  "Bearer " +:+ token.

(** [!!token]: a token that is present and not the empty string. *)
Definition enabled (s : State) : bool :=
  match tokenState s with
  | Some t => negb (String.eqb t "")
  | None => false
  end.

(** [queryFn] (lines 42-61): [server] is what the request whose
    Authorization header the client sets to the given string is answered
    with, the way to the server included.  Returns the cells afterwards
    and the body returned, or the message of the error thrown. *)
Definition queryFn (server : string -> Http.Reply) (s : State)
    : State * (Http.Body + string) :=
  match tokenState s with
  | None => (s, inr "No token")
  | Some t =>
      if String.eqb t "" then (s, inr "No token")
      else
        let response := server (authorizationHeader t) in
        if negb (Http.ok response) then
          if (Http.status response =? 401)%Z then
            ({| localStorage_token := None; tokenState := None |},
             inr "Unauthorized")
          else (s, inr "Failed to fetch user")
        else (s, inl (Http.body response))
  end.

(** [onSuccess] of the login and of the register mutation (lines 83-91
    and 118-126), which are the same. *)
Definition onSuccess (data : LoginResponse) (s : State) : State :=
  {| localStorage_token := Some (token data);
     tokenState := Some (token data) |}.

(** [logout] (lines 144-153) *)
Definition logout (s : State) : State :=
  {| localStorage_token := None; tokenState := None |}.

(** What can happen to a mounted provider. *)
Inductive Action : Type :=
| loginSucceeded (data : LoginResponse)
| registerSucceeded (data : LoginResponse)
| loggedOut
| userQueried (server : string -> Http.Reply).

Definition step (s : State) (a : Action) : State :=
  match a with
  | loginSucceeded data | registerSucceeded data => onSuccess data s
  | loggedOut => logout s
  | userQueried server => (queryFn server s).1
  end.

End AuthProvider.

(** ** The posture score in binary64 (lines 76-77)

    The same two lines on IEEE 754 doubles, the numbers the program runs
    on, for the places where the rounding of the sum, of the quotient or
    of the product decides the result. *)

Module Binary64.

(** [keypoints.length] as a number; exact, an array's length being below
    2^32. *)
Definition of_nat (n : nat) : PrimFloat.float :=
  PrimFloat.of_uint63 (Uint63.of_Z (Z.of_nat n)).

(** A non-negative integer below 2^53 as a double. *)
Definition of_N (n : Z) : PrimFloat.float :=
  PrimFloat.of_uint63 (Uint63.of_Z n).


(** [Math.round(f)]: the nearest integer, halves towards +Infinity.  A
    double with a non-negative exponent is an integer already; otherwise
    the value is [±m / 2^-e] and the result is the floor of that plus a
    half, below 2^53 in size; a zero result keeps the sign of [f]. *)
Definition Math_round (f : PrimFloat.float) : PrimFloat.float :=
  match FloatOps.Prim2SF f with
  | SpecFloat.S754_finite s m e =>
      if (0 <=? e)%Z then f
      else
        let n := ((2 * (if s then Z.neg m else Z.pos m) + 2 ^ (- e))
                  / 2 ^ (1 - e))%Z in
        if (n =? 0)%Z then (if s then PrimFloat.opp PrimFloat.zero
                            else PrimFloat.zero)
        else if (n <? 0)%Z then PrimFloat.opp (of_N (- n))
        else of_N n
  | _ => f
  end.

(** [scores.reduce((sum, s) => sum + s, 0) / scores.length] for the
    scores of the keypoints *)
Definition averageConfidence (scores : list PrimFloat.float)
    : PrimFloat.float :=
  PrimFloat.div (fold_left PrimFloat.add scores PrimFloat.zero)
                (of_nat (length scores)).

(** [Math.round(averageConfidence * 100)] *)
Definition postureScore (scores : list PrimFloat.float) : PrimFloat.float :=
  Math_round (PrimFloat.mul (averageConfidence scores) (of_N 100)).


End Binary64.


(** ** Bearer tokens on the wire *)

Module Token.

(** The characters of a JSON Web Token: letters, digits, and the three
    signs of base64url and the separator. *)
Definition character (a : Ascii.ascii) : bool :=
  let n := Ascii.nat_of_ascii a in
  ((48 <=? n) && (n <=? 57) || (65 <=? n) && (n <=? 90)
   || (97 <=? n) && (n <=? 122)
   || (n =? 45) || (n =? 95) || (n =? 46))%nat.

Fixpoint wellFormed (token : string) : bool :=
  match token with
  | EmptyString => true
  | String a rest => character a && wellFormed rest
  end.

End Token.

(** * Properties *)

(** ** Arithmetic of [JS.number] *)

Section Numbers.

Local Open Scope Q_scope.

Lemma Qltb_lt (p q : Q) : JS.Qltb p q = true <-> p < q.
Proof.
  unfold JS.Qltb. rewrite negb_true_iff.
  split; intros H.
  - apply Qnot_le_lt. intros Hle. apply Qle_bool_iff in Hle. congruence.
  - destruct (Qle_bool q p) eqn:E; [|reflexivity].
    apply Qle_bool_iff in E. exfalso. apply (Qlt_not_le p q); assumption.
Qed.

Lemma Qltb_ge (p q : Q) : JS.Qltb p q = false <-> q <= p.
Proof.
  unfold JS.Qltb. rewrite negb_false_iff. apply Qle_bool_iff.
Qed.

Lemma same_refl (a : number) : JS.same a a.
Proof. destruct a; simpl; [exact I | reflexivity | reflexivity]. Qed.

Lemma same_sym (a b : number) : JS.same a b -> JS.same b a.
Proof.
  destruct a, b; simpl; try tauto; intros H; [congruence | now symmetry].
Qed.

Lemma same_trans (a b c : number) :
  JS.same a b -> JS.same b c -> JS.same a c.
Proof.
  destruct a, b, c; simpl; try tauto; intros H1 H2;
    [congruence | now rewrite H1].
Qed.

(** With factor 1 the blend is the previous value, whenever the current
    one is finite. *)
Lemma blend_factor_one (previous current : number) :
  JS.finite current -> JS.same (Spec.blend (Num 1) previous current) previous.
Proof.
  destruct current as [| |q]; simpl; try tauto. intros _.
  destruct previous as [| s |p]; simpl.
  - exact I.
  - reflexivity.
  - ring.
Qed.

End Numbers.

(** ** The smoother against its reference *)

(** The reference, index by index, in the specification's words. *)
Lemma Spec_smoothKeypoints_lookup (α : number)
    (current previous : list Keypoint) (i : nat) :
  Spec.smoothKeypoints α current previous !! i
  = (fun kp =>
       match previous !! i with
       | Some prevKp =>
           if Spec.confident kp && Spec.confident prevKp
           then {| x := Spec.blend α (x prevKp) (x kp);
                   y := Spec.blend α (y prevKp) (y kp);
                   score := score kp;
                   name := name kp |}
           else kp
       | None => kp
       end) <$> current !! i.
Proof.
  revert previous i.
  induction current as [|kp current IH]; intros previous i.
  - reflexivity.
  - destruct previous as [|prevKp previous]; destruct i as [|i]; simpl.
    + reflexivity.
    + rewrite IH. reflexivity.
    + reflexivity.
    + apply IH.
Qed.

Lemma smoothKeypoints_imap (α : number) (previousPose : Pose)
    (current : list Keypoint) :
  imap (smoothKeypoint α previousPose) current
  = Spec.smoothKeypoints α current (keypoints previousPose).
Proof.
  apply list_eq. intros i.
  rewrite list_lookup_imap, Spec_smoothKeypoints_lookup.
  destruct (current !! i) as [kp|]; reflexivity.
Qed.

Lemma smoothPoseMovement_reference (α : number) (currentPose : Pose)
    (previousPose : option Pose) :
  smoothPoseMovement α currentPose previousPose
  = (Spec.smooth α currentPose previousPose).1.
Proof.
  destruct previousPose as [previousPose|]; simpl; [|reflexivity].
  rewrite smoothKeypoints_imap. reflexivity.
Qed.

Lemma smoothPoseMovement_length (α : number) (currentPose : Pose)
    (previousPose : option Pose) :
  length (keypoints (smoothPoseMovement α currentPose previousPose))
  = length (keypoints currentPose).
Proof.
  destruct previousPose as [previousPose|]; simpl; [|reflexivity].
  apply length_imap.
Qed.

(** ** One frame of [detect] *)

(** The three ways [detectRepMovement] can end. *)
Lemma detectRepMovement_cases (n : Z) (pose : Pose) (r : number) :
  (exists e, detectRepMovement n pose r = Throw e)
  \/ detectRepMovement n pose r = Normal (n, [])
  \/ (detectRepMovement n pose r = Normal ((n + 1)%Z, [onRepCount (n + 1)%Z])
      /\ wristsConfident {| poses := [pose]; random := r |} = true
      /\ (r <? Num (15 # 1000))%js = true).
Proof.
  unfold detectRepMovement, wristsConfident; simpl.
  destruct (keypoints pose !! 10%nat) as [rightWrist|]; [|left; eauto].
  destruct (score rightWrist >? Num (1 # 2))%js; [|right; left; reflexivity].
  destruct (keypoints pose !! 9%nat) as [leftWrist|]; [|left; eauto].
  destruct (score leftWrist >? Num (1 # 2))%js; [|right; left; reflexivity].
  destruct (r <? Num (15 # 1000))%js; [|right; left; reflexivity].
  right; right. auto.
Qed.

Lemma wristsConfident_first (pose : Pose) (rest : list Pose) (r r' : number) :
  wristsConfident {| poses := pose :: rest; random := r |}
  = wristsConfident {| poses := [pose]; random := r' |}.
Proof. reflexivity. Qed.

(** What a frame with a pose leaves behind, however it completes. *)
Lemma detect_pose (pairs : list (nat * nat)) (c : Component)
    (currentPose : Pose) (rest : list Pose) (r : number) :
  let res := detect pairs c {| poses := currentPose :: rest; random := r |} in
  smoothedPoses res.1.2
  = [smoothPoseMovement (smoothingFactorRef c) currentPose (previousPoseRef c)]
  /\ previousPoseRef res.1.1 = Some currentPose
  /\ smoothingFactorRef res.1.1 = smoothingFactorRef c.
Proof.
  unfold detect; simpl.
  destruct (drawPose pairs _) as [[]|e]; simpl; [|auto].
  destruct (detectRepMovement_cases (repCount c) currentPose r)
    as [[e ->]|[->|[-> _]]]; simpl; auto.
Qed.


(** The rep count after a frame: unchanged, or one more, and then only
    behind the confidence gate and a draw below 0.015; the [onRepCount]
    calls mirror exactly that. *)
Lemma detect_repCount (pairs : list (nat * nat)) (c : Component) (f : Frame) :
  let res := detect pairs c f in
  (repCount res.1.1 = repCount c /\ repEvents res.1.2 = [])
  \/ (repCount res.1.1 = (repCount c + 1)%Z
      /\ repEvents res.1.2 = [(repCount c + 1)%Z]
      /\ wristsConfident f = true
      /\ (random f <? Num (15 # 1000))%js = true
      /\ res.2 = Normal tt).
Proof.
  destruct f as [ps r]. unfold detect; simpl.
  destruct ps as [|currentPose rest]; simpl; [left; auto|].
  destruct (drawPose pairs _) as [[]|e]; simpl; [|left; auto].
  destruct (detectRepMovement_cases (repCount c) currentPose r)
    as [[e ->]|[->|[-> [Hgate Hdraw]]]]; simpl; [left; auto | left; auto |].
  right. rewrite (wristsConfident_first _ rest r r). auto.
Qed.

(** With the library's table, a pose of at least 17 keypoints is drawn
    without a failed read. *)
Lemma drawSkeleton_in_range (kps : list Keypoint) (pairs : list (nat * nat)) :
  Forall (fun ij => (ij.1 < length kps)%nat /\ (ij.2 < length kps)%nat) pairs ->
  drawSkeleton kps pairs = Normal tt.
Proof.
  induction 1 as [|[i j] pairs [Hi Hj] _ IH]; simpl in *; [reflexivity|].
  destruct (lookup_lt_is_Some_2 kps i Hi) as [kp1 ->].
  destruct (lookup_lt_is_Some_2 kps j Hj) as [kp2 ->].
  destruct (score kp1 >? Num (3 # 10))%js; exact IH.
Qed.

Lemma drawPose_MoveNet (pose : Pose) :
  (17 <= length (keypoints pose))%nat ->
  drawPose MoveNet_adjacentPairs pose = Normal tt.
Proof.
  intros H. apply drawSkeleton_in_range.
  unfold MoveNet_adjacentPairs.
  repeat (apply Forall_cons; split; [simpl; lia|]). apply Forall_nil; exact I.
Qed.

Lemma detectRepMovement_in_range (n : Z) (pose : Pose) (r : number) :
  (11 <= length (keypoints pose))%nat ->
  exists res, detectRepMovement n pose r = Normal res.
Proof.
  intros H. unfold detectRepMovement.
  destruct (lookup_lt_is_Some_2 (keypoints pose) 10%nat) as [rw ->]; [lia|].
  destruct (lookup_lt_is_Some_2 (keypoints pose) 9%nat) as [lw ->]; [lia|].
  destruct (score rw >? Num (1 # 2))%js; [|eauto].
  destruct (score lw >? Num (1 # 2))%js; [|eauto].
  destruct (r <? Num (15 # 1000))%js; eauto.
Qed.

(** ** The animation loop *)


Lemma repEvents_app (a b : list Callback) :
  repEvents (a ++ b) = repEvents a ++ repEvents b.
Proof. apply omap_app. Qed.


(** Over a whole run the count never decreases, grows by at most one per
    frame that passes the confidence gate, and every increment is reported
    by one [onRepCount] call. *)
Lemma run_repCount (pairs : list (nat * nat)) (frames : list Frame) :
  forall c : Component,
  let res := run pairs c frames in
  (repCount c <= repCount res.1.1
   <= repCount c + Z.of_nat (gatedFrames frames))%Z
  /\ Z.of_nat (length (repEvents res.1.2))
     = (repCount res.1.1 - repCount c)%Z.
Proof.
  induction frames as [|f frames IH]; intros c; simpl.
  - unfold gatedFrames; simpl. lia.
  - pose proof (detect_repCount pairs c f) as Hd. simpl in Hd.
    specialize (IH (detect pairs c f).1.1). simpl in IH.
    assert (Hg : (Z.of_nat (gatedFrames frames)
                  <= Z.of_nat (gatedFrames (f :: frames))
                  /\ (wristsConfident f = true ->
                      Z.of_nat (gatedFrames (f :: frames))
                      = 1 + Z.of_nat (gatedFrames frames)))%Z).
    { unfold gatedFrames; simpl.
      destruct (wristsConfident f); simpl; split; try lia; discriminate. }
    destruct (detect pairs c f) as [[c1 calls1] [[]|e]]; simpl in *.
    + destruct (run pairs c1 frames) as [[c2 calls2] r2]; simpl in *.
      rewrite repEvents_app, length_app.
      destruct Hd as [[Hc Hev]|(Hc & Hev & Hgate & _)];
        rewrite Hev; simpl; destruct Hg as [Hg1 Hg2]; [lia|].
      specialize (Hg2 Hgate). lia.
    + destruct Hd as [[Hc Hev]|(_ & _ & _ & _ & Habs)]; [|discriminate].
      rewrite Hev; simpl. lia.
Qed.

(** ** Rep counting *)

(** C1, evaluated on the code: the same mounted component run twice over
    the same two frames (a still pose, both wrists at confidence 0.9)
    reports one rep when the first draw of [Math.random()] is 0.01 and none
    when it is 0.5; the poses, hence any trajectory value, are identical in
    both runs, so the count after a frame is no function of the component
    and the poses of the frame. *)
Theorem C1_count_follows_the_draw :
  firstPoses (heldFrames [1 # 100; 1 # 2]) = firstPoses (heldFrames [1 # 2; 1 # 2])
  /\ repCount (run MoveNet_adjacentPairs mount (heldFrames [1 # 100; 1 # 2])).1.1
     = 1%Z
  /\ repCount (run MoveNet_adjacentPairs mount (heldFrames [1 # 2; 1 # 2])).1.1
     = 0%Z
  /\ ~ (exists step : Component -> list Pose -> Z,
         forall (c : Component) (f : Frame),
           repCount (detect MoveNet_adjacentPairs c f).1.1 = step c (poses f)).
Proof.
  split; [reflexivity|]. split; [vm_compute; reflexivity|].
  split; [vm_compute; reflexivity|].
  intros [step Hstep].
  pose proof (Hstep mount (frameOf (still 100 50 (9 # 10) 17) (1 # 100)))
    as Hlow.
  pose proof (Hstep mount (frameOf (still 100 50 (9 # 10) 17) (1 # 2)))
    as Hhigh.
  simpl poses in Hlow, Hhigh. rewrite <- Hhigh in Hlow.
  vm_compute in Hlow. discriminate Hlow.
Qed.

(** ** Smoothing *)


(** C4: the smoother is its reference.  The pose [smoothPoseMovement]
    returns, which is the pose [detect] hands on, is the reference output
    for the state held in [previousPoseRef], and the state [detect] leaves
    is the reference's next state; spelled out: without a previous pose
    the output is the input, and with one every output keypoint carries
    the current confidence, the blend [previous * α + current * (1 - α)]
    of x and y where both confidences exceed 0.3, and the current x and y
    elsewhere. *)
Theorem C4_smoother_is_reference (pairs : list (nat * nat)) (c : Component)
    (currentPose : Pose) (rest : list Pose) (r : number) :
  let α := smoothingFactorRef c in
  let reference := Spec.smooth α currentPose (previousPoseRef c) in
  let res := detect pairs c {| poses := currentPose :: rest; random := r |} in
  smoothPoseMovement α currentPose (previousPoseRef c) = reference.1
  /\ smoothedPoses res.1.2 = [reference.1]
  /\ previousPoseRef res.1.1 = reference.2
  /\ smoothPoseMovement α currentPose None = currentPose
  /\ Forall (fun previousPose =>
       forall i : nat,
         keypoints (smoothPoseMovement α currentPose (Some previousPose)) !! i
         = (fun kp =>
              {| x := match keypoints previousPose !! i with
                      | Some prevKp =>
                          if Spec.confident kp && Spec.confident prevKp
                          then (x prevKp * α + x kp * (Num 1 - α))%js
                          else x kp
                      | None => x kp
                      end;
                 y := match keypoints previousPose !! i with
                      | Some prevKp =>
                          if Spec.confident kp && Spec.confident prevKp
                          then (y prevKp * α + y kp * (Num 1 - α))%js
                          else y kp
                      | None => y kp
                      end;
                 score := score kp;
                 name := name kp |}) <$> keypoints currentPose !! i)
     (option_list (previousPoseRef c)).
Proof.
  intros α reference res.
  pose proof (detect_pose pairs c currentPose rest r) as (Hout & Hst & _).
  fold res in Hout, Hst. fold α in Hout.
  assert (Href : smoothPoseMovement α currentPose (previousPoseRef c)
                 = reference.1) by apply smoothPoseMovement_reference.
  split; [exact Href|]. split; [rewrite Hout, Href; reflexivity|].
  split; [rewrite Hst; unfold reference, Spec.smooth;
          destruct (previousPoseRef c); reflexivity|].
  split; [reflexivity|].
  destruct (previousPoseRef c) as [previousPose|]; simpl; [|constructor].
  constructor; [|constructor]. intros i.
  rewrite list_lookup_imap.
  destruct (keypoints currentPose !! i) as [kp|]; simpl; [|reflexivity].
  f_equal. unfold smoothKeypoint.
  destruct (keypoints previousPose !! i) as [prevKp|]; [|destruct kp; reflexivity].
  change (score kp >? Num (3 # 10))%js with (Spec.confident kp).
  change (score prevKp >? Num (3 # 10))%js with (Spec.confident prevKp).
  destruct (Spec.confident kp && Spec.confident prevKp);
    [reflexivity | destruct kp; reflexivity].
Qed.

(** ** Keypoint cardinality *)

(** C5 as stated fails: after a frame of 17 keypoints, a frame of 18 is
    processed to normal completion; nothing is raised. *)
Lemma C5_mismatch_counterexample :
  ~ (forall (c : Component) (previousPose currentPose : Pose) (r : number),
       previousPoseRef c = Some previousPose ->
       length (keypoints currentPose) <> length (keypoints previousPose) ->
       exists e,
         (detect MoveNet_adjacentPairs c
                 {| poses := [currentPose]; random := r |}).2 = Throw e).
Proof.
  intros H.
  destruct (H (run MoveNet_adjacentPairs mount
                   [frameOf (still 100 50 (9 # 10) 17) (1 # 2)]).1.1
              (still 100 50 (9 # 10) 17) (still 100 50 (9 # 10) 18)
              (Num (1 # 2)))
    as [e He].
  - vm_compute. reflexivity.
  - vm_compute. lia.
  - vm_compute in He. discriminate He.
Qed.

(** C5, amended: a frame whose keypoint count differs from that of the
    previous frame is not rejected.  The smoother returns a pose with the
    current frame's count in which every index the previous pose lacks
    holds the current keypoint unchanged, and with the library's table for
    MoveNet every frame of at least 17 keypoints completes normally,
    whatever the previous count, reporting its posture score and becoming
    the new previous pose. *)
Theorem C5_mismatch_is_processed (c : Component)
    (currentPose : Pose) (rest : list Pose) (r : number) :
  (17 <= length (keypoints currentPose))%nat ->
  let res := detect MoveNet_adjacentPairs c
                    {| poses := currentPose :: rest; random := r |} in
  res.2 = Normal tt
  /\ previousPoseRef res.1.1 = Some currentPose
  /\ postureUpdates res.1.2 = [postureScore currentPose]
  /\ exists out : Pose,
       smoothedPoses res.1.2 = [out]
       /\ length (keypoints out) = length (keypoints currentPose)
       /\ forall (previousPose : Pose) (i : nat),
            previousPoseRef c = Some previousPose ->
            (length (keypoints previousPose) <= i)%nat ->
            keypoints out !! i = keypoints currentPose !! i.
Proof.
  intros Hlen res.
  pose proof (detect_pose MoveNet_adjacentPairs c currentPose rest r)
    as (Hout & Hst & _). fold res in Hout, Hst.
  assert (Hres : res.2 = Normal tt
                 /\ postureUpdates res.1.2 = [postureScore currentPose]).
  { unfold res, detect; simpl.
    rewrite drawPose_MoveNet
      by (rewrite smoothPoseMovement_length; exact Hlen).
    destruct (detectRepMovement_in_range (repCount c) currentPose r)
      as [[n calls] Hn]; [lia|].
    destruct (detectRepMovement_cases (repCount c) currentPose r)
      as [[e He]|[He|[He _]]]; rewrite He in *; try discriminate;
      simpl; auto. }
  destruct Hres as [Hnormal Hposture].
  repeat split; try assumption.
  eexists. split; [exact Hout|]. split; [apply smoothPoseMovement_length|].
  intros previousPose i Hprev Hi. rewrite Hprev. simpl.
  rewrite list_lookup_imap. unfold smoothKeypoint.
  rewrite (lookup_ge_None_2 _ _ Hi).
  destruct (keypoints currentPose !! i); reflexivity.
Qed.

Lemma C5_mismatch_witness :
  let c := (run MoveNet_adjacentPairs mount
                [frameOf (still 100 50 (9 # 10) 17) (1 # 2)]).1.1 in
  let res := detect MoveNet_adjacentPairs c
                    (frameOf (still 100 50 (9 # 10) 18) (1 # 2)) in
  res.2 = Normal tt
  /\ previousPoseRef res.1.1 = Some (still 100 50 (9 # 10) 18)
  /\ postureUpdates res.1.2 = [postureScore (still 100 50 (9 # 10) 18)]
  /\ exists out : Pose,
       smoothedPoses res.1.2 = [out]
       /\ length (keypoints out)
          = length (keypoints (still 100 50 (9 # 10) 18))
       /\ forall (previousPose : Pose) (i : nat),
            previousPoseRef c = Some previousPose ->
            (length (keypoints previousPose) <= i)%nat ->
            keypoints out !! i = keypoints (still 100 50 (9 # 10) 18) !! i.
Proof.
  intros c.
  apply (C5_mismatch_is_processed c (still 100 50 (9 # 10) 18) []
           (Num (1 # 2))).
  simpl. lia.
Defined.

(** ** The confidence gate of the rep counter *)

(** A confidence not above a threshold of at most 0.5 is not above 0.5. *)
Lemma not_above_half (a : number) (t : Q) :
  (t <= 1 # 2)%Q -> (a >? Num t)%js = false -> (a >? Num (1 # 2))%js = false.
Proof.
  intros Ht. unfold JS.gt, JS.lt.
  destruct a as [| s |q]; try (intros H; exact H).
  rewrite !Qltb_ge. intros H. lra.
Qed.

Lemma wristsConfident_low (f : Frame) (pose : Pose) (rest : list Pose)
    (kp : Keypoint) :
  poses f = pose :: rest ->
  keypoints pose !! 10%nat = Some kp \/ keypoints pose !! 9%nat = Some kp ->
  (score kp >? Num (1 # 2))%js = false ->
  wristsConfident f = false.
Proof.
  intros Hf Hkp Hlow. unfold wristsConfident. rewrite Hf.
  destruct (keypoints pose !! 10%nat) as [rw|]; [|reflexivity].
  destruct (keypoints pose !! 9%nat) as [lw|]; [|reflexivity].
  destruct Hkp as [[= ->]|[= ->]]; rewrite Hlow;
    [reflexivity | apply andb_false_r].
Qed.

Lemma detect_gate_closed (pairs : list (nat * nat)) (c : Component)
    (f : Frame) :
  wristsConfident f = false ->
  repCount (detect pairs c f).1.1 = repCount c
  /\ repEvents (detect pairs c f).1.2 = [].
Proof.
  intros Hgate.
  destruct (detect_repCount pairs c f) as [H|(_ & _ & Habs & _)];
    [exact H | congruence].
Qed.

Lemma gatedFrames_none (frames : list Frame) :
  Forall (fun f => wristsConfident f = false) frames ->
  gatedFrames frames = 0%nat.
Proof.
  unfold gatedFrames.
  induction 1 as [|f frames Hf _ IH]; simpl; [reflexivity|].
  rewrite Hf. exact IH.
Qed.

Lemma wristsConfident_zero (f : Frame) :
  Forall (fun pose => Forall (fun kp => score kp = Num 0) (keypoints pose))
         (poses f) ->
  wristsConfident f = false.
Proof.
  intros Hzero. unfold wristsConfident.
  destruct (poses f) as [|pose rest]; [reflexivity|].
  apply Forall_cons_1 in Hzero as [Hpose _].
  destruct (keypoints pose !! 10%nat) as [rw|] eqn:Hrw; [|reflexivity].
  destruct (keypoints pose !! 9%nat) as [lw|]; [|reflexivity].
  rewrite Forall_lookup in Hpose. rewrite (Hpose _ _ Hrw). reflexivity.
Qed.

(** C8: a frame in which a tracked wrist (index 10 or 9) has a confidence
    not above the threshold, for any threshold up to the gate's 0.5 (the
    smoother's 0.3 included), leaves the rep count unchanged and calls
    [onRepCount] not at all; and over any sequence of frames whose
    keypoints all have confidence 0 the count of a freshly mounted
    component stays 0 with no [onRepCount] call. *)
Theorem C8_low_confidence_consumes_nothing (pairs : list (nat * nat)) :
  (forall (t : Q) (c : Component) (f : Frame) (pose : Pose)
          (rest : list Pose) (kp : Keypoint),
     (t <= 1 # 2)%Q ->
     poses f = pose :: rest ->
     keypoints pose !! 10%nat = Some kp \/ keypoints pose !! 9%nat = Some kp ->
     (score kp >? Num t)%js = false ->
     repCount (detect pairs c f).1.1 = repCount c
     /\ repEvents (detect pairs c f).1.2 = [])
  /\ (forall frames : list Frame,
        Forall (fun f =>
                  Forall (fun pose =>
                            Forall (fun kp => score kp = Num 0)
                                   (keypoints pose))
                         (poses f))
               frames ->
        repCount (run pairs mount frames).1.1 = 0%Z
        /\ repEvents (run pairs mount frames).1.2 = []).
Proof.
  split.
  - intros t c f pose rest kp Ht Hf Hkp Hlow.
    apply detect_gate_closed.
    apply (wristsConfident_low f pose rest kp Hf Hkp).
    apply (not_above_half _ t Ht Hlow).
  - intros frames Hzero.
    destruct (run_repCount pairs frames mount) as [Hbound Hevents].
    rewrite gatedFrames_none in Hbound.
    + simpl in Hbound, Hevents.
      assert (Hc : repCount (run pairs mount frames).1.1 = 0%Z) by lia.
      split; [exact Hc|].
      rewrite Hc in Hevents. simpl in Hevents.
      destruct (repEvents (run pairs mount frames).1.2);
        [reflexivity | simpl in Hevents; lia].
    + eapply Forall_impl; [exact Hzero|].
      intros f Hf. apply wristsConfident_zero. exact Hf.
Qed.

Lemma C8_low_confidence_witness :
  (repCount (detect MoveNet_adjacentPairs mount
                    (frameOf (still 100 50 (3 # 10) 17) (1 # 1000))).1.1
   = repCount mount
   /\ repEvents (detect MoveNet_adjacentPairs mount
                        (frameOf (still 100 50 (3 # 10) 17) (1 # 1000))).1.2
      = [])
  /\ (repCount (run MoveNet_adjacentPairs mount
                    (replicate 10 (frameOf (still 100 50 0 17) (1 # 1000)))).1.1
      = 0%Z
      /\ repEvents (run MoveNet_adjacentPairs mount
                        (replicate 10 (frameOf (still 100 50 0 17)
                                               (1 # 1000)))).1.2
         = []).
Proof.
  destruct (C8_low_confidence_consumes_nothing MoveNet_adjacentPairs)
    as [Hframe Hrun].
  split.
  - apply (Hframe (3 # 10)%Q mount _ (still 100 50 (3 # 10) 17) []
                  (kpAt 100 50 (3 # 10))).
    + vm_compute. discriminate.
    + reflexivity.
    + left. reflexivity.
    + vm_compute. reflexivity.
  - apply Hrun. vm_compute.
    repeat (constructor; try reflexivity).
Defined.

(** ** The posture score *)

Section PostureScore.

Local Open Scope Q_scope.

Lemma sum_confidences (kps : list Keypoint) :
  forall (qs : list Q) (s : Q),
  score <$> kps = Num <$> qs ->
  fold_left (fun sum kp => sum + score kp)%js kps (Num s)
  = Num (fold_left Qplus qs s).
Proof.
  induction kps as [|kp kps IH]; intros [|q qs] s H; try discriminate.
  - reflexivity.
  - simpl in H. injection H as Hq Hrest. simpl. rewrite Hq. simpl.
    apply IH. exact Hrest.
Qed.

Lemma fold_left_Qplus (qs : list Q) :
  forall s : Q, fold_left Qplus qs s == s + fold_right Qplus 0 qs.
Proof.
  induction qs as [|q qs IH]; intros s; simpl.
  - ring.
  - rewrite IH. ring.
Qed.

Lemma count_positive (n : nat) : 0 < inject_Z (Z.of_nat (S n)).
Proof. unfold Qlt; simpl. lia. Qed.

Lemma count_succ (n : nat) :
  inject_Z (Z.of_nat (S n)) == inject_Z (Z.of_nat n) + 1.
Proof.
  rewrite Nat2Z.inj_succ. unfold Z.succ. rewrite inject_Z_plus. reflexivity.
Qed.

(** On a pose with keypoints and finite confidences the code computes the
    reference score. *)
Lemma postureScore_reference (pose : Pose) (qs : list Q) :
  keypoints pose <> [] ->
  confidences pose qs ->
  postureScore pose = JS.of_Z (Spec.score qs).
Proof.
  intros Hne Hqs. unfold postureScore, averageConfidence.
  rewrite (sum_confidences _ qs 0 Hqs).
  assert (Hlen : length (keypoints pose) = length qs).
  { unfold confidences in Hqs.
    rewrite <- (length_fmap score (keypoints pose)), Hqs.
    apply length_fmap. }
  rewrite Hlen.
  destruct qs as [|q qs].
  { destruct (keypoints pose); [congruence | discriminate]. }
  unfold JS.of_nat, JS.div.
  pose proof (count_positive (length qs)) as Hpos.
  apply Qgt_alt in Hpos. simpl length. rewrite Hpos.
  unfold JS.mul, Math_round, JS.of_Z, Spec.score, Spec.round, Spec.mean.
  do 2 f_equal. apply Qfloor_comp.
  rewrite fold_left_Qplus, Qplus_0_l. reflexivity.
Qed.

Lemma sum_range (qs : list Q) :
  Forall (fun q => 0 <= q <= 1) qs ->
  0 <= fold_right Qplus 0 qs <= inject_Z (Z.of_nat (length qs)).
Proof.
  induction 1 as [|q qs [Hq0 Hq1] _ [IH0 IH1]].
  - simpl. split; apply Qle_refl.
  - simpl fold_right. simpl length. rewrite count_succ.
    split; lra.
Qed.

Lemma mean_range (qs : list Q) :
  qs <> [] ->
  Forall (fun q => 0 <= q <= 1) qs ->
  0 <= Spec.mean qs <= 1.
Proof.
  intros Hne Hqs. destruct (sum_range qs Hqs) as [H0 H1].
  destruct qs as [|q qs]; [congruence|].
  pose proof (count_positive (length qs)) as Hpos.
  unfold Spec.mean. split.
  - apply Qle_shift_div_l; [exact Hpos|]. lra.
  - apply Qle_shift_div_r; [exact Hpos|]. lra.
Qed.

Lemma round_range (q : Q) : 0 <= q <= 100 -> (0 <= Spec.round q <= 100)%Z.
Proof.
  intros [H0 H100]. unfold Spec.round. split.
  - change 0%Z with (Qfloor 0). apply Qfloor_resp_le. lra.
  - change 100%Z with (Qfloor (100 + (1 # 2))). apply Qfloor_resp_le. lra.
Qed.

Lemma score_range (qs : list Q) :
  qs <> [] ->
  Forall (fun q => 0 <= q <= 1) qs ->
  (0 <= Spec.score qs <= 100)%Z.
Proof.
  intros Hne Hqs. destruct (mean_range qs Hne Hqs) as [H0 H1].
  apply round_range. lra.
Qed.


Lemma confidences_nonempty (pose : Pose) (qs : list Q) :
  confidences pose qs -> keypoints pose <> [] -> qs <> [].
Proof.
  unfold confidences. intros H Hne ->. destruct (keypoints pose);
    [congruence | discriminate].
Qed.

End PostureScore.

(** ** Monotonicity of the posture score *)

Section Monotone.

Local Open Scope Q_scope.












End Monotone.



(** ** The session record *)

(** C9: finalizing a session that processed no frame succeeds with a
    record of duration 0 and rep count 0 whose accuracy and posture score
    are absent, and closes the aggregator. *)
Theorem C9_empty_session_metrics (accuracyOf : SessionAggregator.Aggregator -> Q)
    (exerciseType notes : string) (timestamp : Z) :
  exists (metrics : SessionAggregator.ExerciseSessionMetrics)
         (after : SessionAggregator.Aggregator),
    SessionAggregator.finalize accuracyOf
      (SessionAggregator.start exerciseType notes) timestamp
    = inl (metrics, after)
    /\ metrics
       = {| SessionAggregator.exerciseType := exerciseType;
            SessionAggregator.duration := 0;
            SessionAggregator.reps := 0;
            SessionAggregator.accuracy := None;
            SessionAggregator.postureScore := None;
            SessionAggregator.notes := notes |}
    /\ SessionAggregator.closed after = true.
Proof.
  do 2 eexists. split; [reflexivity|]. split; reflexivity.
Qed.

(** * Further properties of the component *)

Lemma smoothPoseMovement_keeps_keypoints (α : number) (currentPose : Pose)
    (previousPose : option Pose) :
  keypoints (smoothPoseMovement α currentPose previousPose) <> []
  <-> keypoints currentPose <> [].
Proof.
  pose proof (smoothPoseMovement_length α currentPose previousPose) as H.
  destruct (keypoints (smoothPoseMovement α currentPose previousPose)),
           (keypoints currentPose); simpl in H; try discriminate;
    split; intros Hne; congruence.
Qed.

(** ** What the callbacks report over a run *)

Lemma postureUpdates_app (a b : list Callback) :
  postureUpdates (a ++ b) = postureUpdates a ++ postureUpdates b.
Proof. apply omap_app. Qed.

(** The posture calls of one frame: none when there is no pose or
    [drawPose] raised, otherwise the score of the raw pose. *)
Lemma detect_postureUpdates (pairs : list (nat * nat)) (c : Component)
    (f : Frame) :
  let res := detect pairs c f in
  (postureUpdates res.1.2 = []
   /\ (res.2 = Normal tt -> poses f = []))
  \/ (exists currentPose rest,
        poses f = currentPose :: rest
        /\ postureUpdates res.1.2 = [postureScore currentPose]
        /\ drawPose pairs (smoothPoseMovement (smoothingFactorRef c)
                             currentPose (previousPoseRef c)) = Normal tt).
Proof.
  destruct f as [ps r]. unfold detect; simpl.
  destruct ps as [|currentPose rest]; simpl; [left; auto|].
  destruct (drawPose pairs _) as [[]|e] eqn:Hdraw; simpl.
  - right. exists currentPose, rest.
    destruct (detectRepMovement_cases (repCount c) currentPose r)
      as [[e ->]|[->|[-> _]]]; simpl; auto.
  - left. split; [reflexivity | discriminate].
Qed.

(** Every frame of a completed run reports exactly one posture score, the
    one of its raw first pose, in frame order. *)
Theorem postureUpdates_of_completed_run (pairs : list (nat * nat))
    (frames : list Frame) (c c' : Component) (calls : list Callback) :
  run pairs c frames = (c', calls, Normal tt) ->
  postureUpdates calls = postureScore <$> firstPoses frames.
Proof.
  revert c c' calls.
  induction frames as [|f frames IH]; intros c c' calls Hrun; simpl in Hrun.
  - injection Hrun as <- <-. reflexivity.
  - pose proof (detect_postureUpdates pairs c f) as Hd. simpl in Hd.
    destruct (detect pairs c f) as [[c1 calls1] [[]|e]]; [|discriminate].
    destruct (run pairs c1 frames) as [[c2 calls2] r2] eqn:Hr.
    injection Hrun as <- <- ->. simpl in Hd.
    rewrite postureUpdates_app, (IH _ _ _ Hr). unfold firstPoses. simpl.
    destruct Hd as [[-> Hnil]|(currentPose & rest & Hf & -> & _)].
    + rewrite (Hnil eq_refl). reflexivity.
    + rewrite Hf. reflexivity.
Qed.

Lemma postureUpdates_witness :
  postureUpdates (run MoveNet_adjacentPairs mount movingFrames).1.2
  = postureScore <$> firstPoses movingFrames.
Proof.
  apply (postureUpdates_of_completed_run MoveNet_adjacentPairs movingFrames
           mount (run MoveNet_adjacentPairs mount movingFrames).1.1).
  vm_compute. reflexivity.
Defined.

Lemma drawPose_needs_a_keypoint (pairs : list (nat * nat)) (pose : Pose) :
  pairs <> [] -> drawPose pairs pose = Normal tt -> keypoints pose <> [].
Proof.
  intros Hpairs Hdraw Hnil. unfold drawPose in Hdraw. rewrite Hnil in Hdraw.
  destruct pairs as [|[i j] pairs]; [congruence|]. discriminate Hdraw.
Qed.

(** With any non-empty adjacency table, every posture score the component
    reports for poses with confidences in [0,1] is an integer from 0 to
    100: the pose without keypoints, whose score would be NaN, raises in
    [drawPose] before the score is computed. *)
Theorem reported_posture_is_a_percentage (pairs : list (nat * nat))
    (c : Component) (frames : list Frame) :
  pairs <> [] ->
  Forall (fun pose => exists qs : list Q,
            confidences pose qs /\ Forall (fun q => 0 <= q <= 1)%Q qs)
         (firstPoses frames) ->
  Forall (fun s => exists n : Z, s = JS.of_Z n /\ (0 <= n <= 100)%Z)
         (postureUpdates (run pairs c frames).1.2).
Proof.
  intros Hpairs. revert c.
  induction frames as [|f frames IH]; intros c Hposes; simpl.
  - constructor.
  - pose proof (detect_postureUpdates pairs c f) as Hd. simpl in Hd.
    assert (Hrest : Forall (fun pose => exists qs : list Q,
                      confidences pose qs
                      /\ Forall (fun q => 0 <= q <= 1)%Q qs)
                      (firstPoses frames)).
    { unfold firstPoses in *. simpl in Hposes.
      destruct (head (poses f)); [apply Forall_cons_1 in Hposes as [_ H]|];
        assumption. }
    assert (Hhere : Forall (fun s => exists n : Z, s = JS.of_Z n
                                                   /\ (0 <= n <= 100)%Z)
                           (postureUpdates (detect pairs c f).1.2)).
    { destruct Hd as [[-> _]|(currentPose & rest & Hf & -> & Hdraw)];
        [constructor|].
      unfold firstPoses in Hposes. simpl in Hposes. rewrite Hf in Hposes.
      simpl in Hposes. apply Forall_cons_1 in Hposes as [(qs & Hqs & Hq) _].
      apply drawPose_needs_a_keypoint in Hdraw; [|exact Hpairs].
      apply smoothPoseMovement_keeps_keypoints in Hdraw.
      constructor; [|constructor]. exists (Spec.score qs). split.
      - apply postureScore_reference; assumption.
      - apply score_range; [|exact Hq].
        apply (confidences_nonempty currentPose); assumption. }
    specialize (IH (detect pairs c f).1.1 Hrest).
    destruct (detect pairs c f) as [[c1 calls1] [[]|e]]; simpl in *;
      [|exact Hhere].
    destruct (run pairs c1 frames) as [[c2 calls2] r2]; simpl in *.
    rewrite postureUpdates_app. apply Forall_app. split; assumption.
Qed.

Lemma reported_posture_witness :
  Forall (fun s => exists n : Z, s = JS.of_Z n /\ (0 <= n <= 100)%Z)
         (postureUpdates
            (run MoveNet_adjacentPairs mount
                 [frameOf (still 0 0 (9 # 10) 17) (1 # 2);
                  frameOf {| keypoints := []; pose_score := Num 0 |} (1 # 2);
                  frameOf (still 0 0 1 17) (1 # 2)]).1.2).
Proof.
  apply reported_posture_is_a_percentage.
  - discriminate.
  - repeat constructor.
    + exists (replicate 17 (9 # 10)%Q). split; [reflexivity|].
      repeat constructor; vm_compute; discriminate.
    + exists []. split; [reflexivity | constructor].
    + exists (replicate 17 1%Q). split; [reflexivity|].
      repeat constructor; vm_compute; discriminate.
Defined.

(** ** Poses without the wrists *)

(** A pose of fewer than 11 keypoints has no right wrist (index 10): the
    frame ends in a [TypeError], in [drawPose] or at the latest in
    [detectRepMovement], whatever the adjacency table.  The count is left
    as it was, the pose has already become the previous pose, and since
    the next frame is never requested the frames that follow have no
    effect. *)
Theorem short_pose_ends_the_loop (pairs : list (nat * nat)) (c : Component)
    (pose : Pose) (others : list Pose) (r : number) (later : list Frame) :
  (length (keypoints pose) < 11)%nat ->
  let f := {| poses := pose :: others; random := r |} in
  (detect pairs c f).2 = Throw TypeError
  /\ run pairs c (f :: later) = detect pairs c f
  /\ repCount (detect pairs c f).1.1 = repCount c
  /\ repEvents (detect pairs c f).1.2 = []
  /\ previousPoseRef (detect pairs c f).1.1 = Some pose.
Proof.
  intros Hshort f.
  assert (Hthrow : (detect pairs c f).2 = Throw TypeError).
  { unfold f, detect; simpl.
    destruct (drawPose pairs _) as [[]|[]]; simpl; [|reflexivity].
    unfold detectRepMovement.
    rewrite (lookup_ge_None_2 (keypoints pose) 10%nat) by lia.
    reflexivity. }
  pose proof (detect_pose pairs c pose others r) as (_ & Hprev & _).
  fold f in Hprev.
  split; [exact Hthrow|]. split; [|split; [|split; [|exact Hprev]]].
  - simpl. destruct (detect pairs c f) as [[c1 calls1] [[]|[]]];
      simpl in Hthrow; [discriminate | reflexivity].
  - destruct (detect_repCount pairs c f) as [[H _]|(_ & _ & _ & _ & Habs)];
      [exact H | rewrite Hthrow in Habs; discriminate].
  - destruct (detect_repCount pairs c f) as [[_ H]|(_ & _ & _ & _ & Habs)];
      [exact H | rewrite Hthrow in Habs; discriminate].
Qed.

Lemma short_pose_witness :
  let f := frameOf (still 100 50 (9 # 10) 10) (1 # 1000) in
  (detect [] mount f).2 = Throw TypeError
  /\ run [] mount (f :: movingFrames) = detect [] mount f
  /\ repCount (detect [] mount f).1.1 = repCount mount
  /\ repEvents (detect [] mount f).1.2 = []
  /\ previousPoseRef (detect [] mount f).1.1
     = Some (still 100 50 (9 # 10) 10).
Proof.
  apply (short_pose_ends_the_loop [] mount (still 100 50 (9 # 10) 10) []
           (Num (1 # 1000)) movingFrames).
  simpl. lia.
Defined.

(** ** The blend of [smoothPoseMovement] *)

Section Blend.

Local Open Scope Q_scope.

Lemma blend_factor_zero (previous current : number) :
  JS.finite previous -> JS.same (Spec.blend (Num 0) previous current) current.
Proof.
  destruct previous as [| |p]; simpl; try tauto. intros _.
  destruct current as [| s |q]; simpl.
  - exact I.
  - reflexivity.
  - ring.
Qed.

End Blend.

(** With factor 0 the smoother passes every frame through: against any
    previous pose whose coordinates are finite, each output keypoint is at
    the place of the current keypoint, with its confidence and name. *)
Theorem factor_zero_passes_through (currentPose previousPose : Pose) :
  Forall (fun kp => JS.finite (x kp) /\ JS.finite (y kp))
         (keypoints previousPose) ->
  samePlace (smoothPoseMovement (Num 0) currentPose (Some previousPose))
            currentPose
  /\ score <$> keypoints (smoothPoseMovement (Num 0) currentPose
                                             (Some previousPose))
     = score <$> keypoints currentPose.
Proof.
  intros Hfin. split.
  - unfold samePlace. apply Forall2_same_length_lookup. split.
    + rewrite smoothPoseMovement_length. reflexivity.
    + intros i outKp kp Hout Hkp. simpl in Hout.
      rewrite list_lookup_imap, Hkp in Hout. injection Hout as <-.
      unfold smoothKeypoint.
      destruct (keypoints previousPose !! i) as [prevKp|] eqn:Hprev;
        [|split; apply same_refl].
      destruct ((score kp >? Num (3 # 10))%js
                && (score prevKp >? Num (3 # 10))%js);
        [|split; apply same_refl].
      rewrite Forall_lookup in Hfin. destruct (Hfin _ _ Hprev) as [Hx Hy].
      split; apply blend_factor_zero; assumption.
  - apply list_eq. intros i. simpl.
    rewrite !list_lookup_fmap, list_lookup_imap.
    destruct (keypoints currentPose !! i) as [kp|]; simpl; [|reflexivity].
    f_equal. unfold smoothKeypoint.
    destruct (keypoints previousPose !! i) as [prevKp|]; [|reflexivity].
    destruct ((score kp >? Num (3 # 10))%js
              && (score prevKp >? Num (3 # 10))%js); reflexivity.
Qed.

Lemma factor_zero_witness :
  samePlace (smoothPoseMovement (Num 0) (still 20 20 (9 # 10) 17)
                                (Some (still 10 10 (9 # 10) 17)))
            (still 20 20 (9 # 10) 17)
  /\ score <$> keypoints (smoothPoseMovement (Num 0) (still 20 20 (9 # 10) 17)
                                             (Some (still 10 10 (9 # 10) 17)))
     = score <$> keypoints (still 20 20 (9 # 10) 17).
Proof.
  apply factor_zero_passes_through.
  repeat constructor.
Defined.

(** ** What [drawPose] puts on the canvas *)

Lemma drawBones_completion (kps : list Keypoint) (pairs : list (nat * nat)) :
  (drawBones kps pairs).2 = drawSkeleton kps pairs.
Proof.
  induction pairs as [|[i j] pairs IH]; simpl; [reflexivity|].
  destruct (kps !! i) as [kp1|]; [|reflexivity].
  destruct (score kp1 >? Num (3 # 10))%js; [|exact IH].
  destruct (kps !! j) as [kp2|]; [|reflexivity].
  destruct (score kp2 >? Num (3 # 10))%js; [|exact IH].
  destruct (drawBones kps pairs) as [calls r]. exact IH.
Qed.

Lemma arcs_app (a b : list Canvas.call) : arcs (a ++ b) = arcs a ++ arcs b.
Proof. apply omap_app. Qed.

Lemma lineEnds_app (a b : list Canvas.call) :
  lineEnds (a ++ b) = lineEnds a ++ lineEnds b.
Proof. apply omap_app. Qed.

Lemma repLabels_app (a b : list Canvas.call) :
  repLabels (a ++ b) = repLabels a ++ repLabels b.
Proof. apply omap_app. Qed.

Lemma drawBones_no_arcs (kps : list Keypoint) (pairs : list (nat * nat)) :
  arcs (drawBones kps pairs).1 = [] /\ repLabels (drawBones kps pairs).1 = [].
Proof.
  induction pairs as [|[i j] pairs IH]; simpl; [auto|].
  destruct (kps !! i) as [kp1|]; [|auto].
  destruct (score kp1 >? Num (3 # 10))%js; [|exact IH].
  destruct (kps !! j) as [kp2|]; [|auto].
  destruct (score kp2 >? Num (3 # 10))%js; [|exact IH].
  destruct (drawBones kps pairs) as [calls r]. exact IH.
Qed.

(** The circle [drawJoint] draws for a keypoint, if any. *)
Lemma drawJoints_arcs (kps : list Keypoint) :
  forall f : nat -> Keypoint -> list Canvas.call,
  (forall i kp, exists colour,
      f i kp = if Spec.confident kp
               then [Canvas.fillStyle colour; Canvas.beginPath;
                     Canvas.arc (x kp) (y kp) (Num 3 + score kp * Num 4)%js;
                     Canvas.fill;
                     Canvas.strokeStyle
                       (Canvas.mkRgba 255 255 255 (Num (8 # 10)));
                     Canvas.lineWidth 1; Canvas.stroke]
               else []) ->
  arcs (mjoin (imap f kps))
  = omap (fun kp => if Spec.confident kp
                    then Some (x kp, y kp, (Num 3 + score kp * Num 4)%js)
                    else None) kps
  /\ lineEnds (mjoin (imap f kps)) = []
  /\ repLabels (mjoin (imap f kps)) = [].
Proof.
  induction kps as [|kp kps IH]; intros f Hf; [simpl; auto|].
  rewrite imap_cons. simpl mjoin.
  rewrite arcs_app, lineEnds_app, repLabels_app.
  destruct (IH (f ∘ S)) as (IHa & IHl & IHr);
    [intros i k; apply (Hf (S i) k)|].
  rewrite IHa, IHl, IHr. destruct (Hf 0%nat kp) as [colour ->].
  simpl. destruct (Spec.confident kp); simpl; auto.
Qed.

Lemma drawJoint_shape (i : nat) (kp : Keypoint) :
  exists colour,
    drawJoint i kp
    = if Spec.confident kp
      then [Canvas.fillStyle colour; Canvas.beginPath;
            Canvas.arc (x kp) (y kp) (Num 3 + score kp * Num 4)%js;
            Canvas.fill;
            Canvas.strokeStyle (Canvas.mkRgba 255 255 255 (Num (8 # 10)));
            Canvas.lineWidth 1; Canvas.stroke]
      else [].
Proof.
  unfold drawJoint, Spec.confident, Spec.minConfidence.
  destruct (score kp >? Num (3 # 10))%js.
  - eexists. reflexivity.
  - exists (Canvas.mkRgba 0 0 0 NaN). reflexivity.
Qed.

Lemma confidences_lookup (pose : Pose) (qs : list Q) (kp : Keypoint) :
  confidences pose qs -> kp ∈ keypoints pose ->
  exists q, q ∈ qs /\ score kp = Num q.
Proof.
  unfold confidences. intros Hqs Hin.
  apply list_elem_of_lookup in Hin as [i Hi].
  assert (H : (score <$> keypoints pose) !! i = Some (score kp))
    by (rewrite list_lookup_fmap, Hi; reflexivity).
  rewrite Hqs, list_lookup_fmap in H.
  destruct (qs !! i) as [q|] eqn:Hq; [|discriminate].
  injection H as H. exists q. split; [|congruence].
  apply list_elem_of_lookup. eauto.
Qed.

(** A pose drawn to completion gets one circle for each keypoint whose
    confidence exceeds 0.3, at the keypoint, in keypoint order and with
    radius 3 + 4·confidence, and none for the others; for confidences up to
    1 every radius lies above 4.2 and at most at 7; and the rep count is
    written out exactly when it is positive. *)
Theorem drawPose_draws_confident_joints (pairs : list (nat * nat))
    (repCount : Z) (pose : Pose) (qs : list Q) :
  drawPose pairs pose = Normal tt ->
  confidences pose qs ->
  Forall (fun q => q <= 1)%Q qs ->
  let canvas := drawPoseCalls pairs repCount pose in
  canvas.2 = Normal tt
  /\ arcs canvas.1
     = omap (fun kp => if (score kp >? Num (3 # 10))%js
                       then Some (x kp, y kp, (Num 3 + score kp * Num 4)%js)
                       else None) (keypoints pose)
  /\ Forall (fun circle => exists r : Q,
               circle.2 = Num r /\ (21 # 5 < r <= 7)%Q) (arcs canvas.1)
  /\ repLabels canvas.1 = if (0 <? repCount)%Z then [repCount] else [].
Proof.
  intros Hdraw Hqs Hle canvas.
  pose proof (drawBones_completion (keypoints pose) pairs) as Hc.
  pose proof (drawBones_no_arcs (keypoints pose) pairs) as [Hba Hbr].
  destruct (drawJoints_arcs (keypoints pose) drawJoint drawJoint_shape)
    as (Hja & _ & Hjr).
  unfold drawPose in Hdraw. rewrite Hdraw in Hc.
  assert (Harcs : arcs canvas.1
                  = omap (fun kp => if Spec.confident kp
                            then Some (x kp, y kp,
                                       (Num 3 + score kp * Num 4)%js)
                            else None) (keypoints pose)
                  /\ canvas.2 = Normal tt
                  /\ repLabels canvas.1
                     = if (0 <? repCount)%Z then [repCount] else []).
  { unfold canvas, drawPoseCalls.
    destruct (drawBones (keypoints pose) pairs) as [bones [[]|e]];
      simpl in Hc, Hba, Hbr; [|discriminate]. simpl.
    rewrite !arcs_app, !repLabels_app, Hba, Hja, Hbr, Hjr. simpl.
    split; [|split; [reflexivity|]].
    - destruct (0 <? repCount)%Z; simpl; apply app_nil_r.
    - destruct (0 <? repCount)%Z; reflexivity. }
  destruct Harcs as (Harcs & Hnormal & Hlabel).
  split; [exact Hnormal|]. split; [exact Harcs|]. split; [|exact Hlabel].
  rewrite Harcs. apply Forall_forall. intros circle Hin.
  apply list_elem_of_omap in Hin as (kp & Hkp & Hcircle).
  destruct (Spec.confident kp) eqn:Hconf; [|discriminate].
  injection Hcircle as <-. simpl.
  destruct (confidences_lookup pose qs kp Hqs Hkp) as (q & Hq & Hscore).
  rewrite Forall_forall in Hle. specialize (Hle q Hq).
  unfold Spec.confident, Spec.minConfidence, JS.gt, JS.lt in Hconf.
  rewrite Hscore in *. apply Qltb_lt in Hconf.
  exists (3 + q * 4)%Q. split; [reflexivity|]. split; lra.
Qed.

Lemma drawPose_joints_witness :
  let canvas := drawPoseCalls MoveNet_adjacentPairs 2
                  (still 100 50 (9 # 10) 17) in
  canvas.2 = Normal tt
  /\ arcs canvas.1
     = omap (fun kp => if (score kp >? Num (3 # 10))%js
                       then Some (x kp, y kp, (Num 3 + score kp * Num 4)%js)
                       else None) (keypoints (still 100 50 (9 # 10) 17))
  /\ Forall (fun circle => exists r : Q,
               circle.2 = Num r /\ (21 # 5 < r <= 7)%Q) (arcs canvas.1)
  /\ repLabels canvas.1 = [2%Z].
Proof.
  apply (drawPose_draws_confident_joints MoveNet_adjacentPairs 2
           (still 100 50 (9 # 10) 17) (replicate 17 (9 # 10)%Q)).
  - vm_compute. reflexivity.
  - reflexivity.
  - repeat constructor; vm_compute; discriminate.
Defined.

Lemma drawBones_lineEnds (kps : list Keypoint) (pairs : list (nat * nat)) :
  Forall (fun point => exists kp, kp ∈ kps /\ Spec.confident kp = true
                                  /\ point = (x kp, y kp))
         (lineEnds (drawBones kps pairs).1).
Proof.
  induction pairs as [|[i j] pairs IH]; simpl; [constructor|].
  destruct (kps !! i) as [kp1|] eqn:H1; [|constructor].
  destruct (score kp1 >? Num (3 # 10))%js eqn:C1; [|exact IH].
  destruct (kps !! j) as [kp2|] eqn:H2; [|constructor].
  destruct (score kp2 >? Num (3 # 10))%js eqn:C2; [|exact IH].
  destruct (drawBones kps pairs) as [calls r]. simpl in *.
  constructor; [|constructor; [|exact IH]].
  - exists kp1. split; [apply list_elem_of_lookup; eauto | auto].
  - exists kp2. split; [apply list_elem_of_lookup; eauto | auto].
Qed.

(** No line of the skeleton touches a keypoint of confidence 0.3 or less:
    every point a line starts or ends at is the place of a keypoint whose
    confidence exceeds 0.3, also when drawing breaks off in a [TypeError];
    and the trace completes exactly as [drawPose] does. *)
Theorem drawPose_lines_join_confident_keypoints (pairs : list (nat * nat))
    (repCount : Z) (pose : Pose) :
  (drawPoseCalls pairs repCount pose).2 = drawPose pairs pose
  /\ Forall (fun point => exists kp, kp ∈ keypoints pose
                                     /\ (score kp >? Num (3 # 10))%js = true
                                     /\ point = (x kp, y kp))
            (lineEnds (drawPoseCalls pairs repCount pose).1).
Proof.
  pose proof (drawBones_completion (keypoints pose) pairs) as Hc.
  pose proof (drawBones_lineEnds (keypoints pose) pairs) as Hl.
  destruct (drawJoints_arcs (keypoints pose) drawJoint drawJoint_shape)
    as (_ & Hjl & _).
  assert (Hs : lineEnds (drawStatus repCount) = [])
    by (unfold drawStatus; destruct (0 <? repCount)%Z; reflexivity).
  unfold drawPoseCalls, drawPose.
  destruct (drawBones (keypoints pose) pairs) as [bones [[]|e]];
    cbn [fst snd] in *; rewrite <- Hc; (split; [reflexivity|]);
    [|exact Hl].
  rewrite !lineEnds_app, Hjl, Hs, !app_nil_r. exact Hl.
Qed.

(** ** The two components side by side *)

Lemma above_04_above_03 (a : number) :
  (a >? Num (4 # 10))%js = true -> (a >? Num (3 # 10))%js = true.
Proof.
  unfold JS.gt, JS.lt. destruct a as [| s |q]; try (intros H; exact H).
  rewrite !Qltb_lt. intros H. lra.
Qed.

Lemma below_0015_below_002 (r : number) :
  (r <? Num (15 # 1000))%js = true -> (r <? Num (2 # 100))%js = true.
Proof.
  unfold JS.lt. destruct r as [| s |q]; try (intros H; exact H).
  rewrite !Qltb_lt. intros H. lra.
Qed.

Lemma smoothPoseMovement_scores (α : number) (currentPose : Pose)
    (previousPose : option Pose) :
  score <$> keypoints (smoothPoseMovement α currentPose previousPose)
  = score <$> keypoints currentPose.
Proof.
  destruct previousPose as [previousPose|]; [|reflexivity].
  apply list_eq. intros i. simpl.
  rewrite !list_lookup_fmap, list_lookup_imap.
  destruct (keypoints currentPose !! i) as [kp|]; simpl; [|reflexivity].
  f_equal. unfold smoothKeypoint.
  destruct (keypoints previousPose !! i) as [prevKp|]; [|reflexivity].
  destruct ((score kp >? Num (3 # 10))%js
            && (score prevKp >? Num (3 # 10))%js); reflexivity.
Qed.

Lemma lookup_same_scores (kps kps' : list Keypoint) (i : nat) :
  score <$> kps' = score <$> kps ->
  match kps !! i, kps' !! i with
  | Some kp, Some kp' => score kp' = score kp
  | None, None => True
  | _, _ => False
  end.
Proof.
  intros H.
  assert (Hi : (score <$> kps') !! i = (score <$> kps) !! i) by (rewrite H; reflexivity).
  rewrite !list_lookup_fmap in Hi.
  destruct (kps !! i), (kps' !! i); simpl in Hi; try discriminate;
    [injection Hi; auto | exact I].
Qed.

(** Where the skeleton loop with threshold 0.3 runs through, the loop
    with threshold 0.4 runs through on keypoints of the same
    confidences. *)
Lemma drawSkeleton_simple (kps kps' : list Keypoint)
    (pairs : list (nat * nat)) :
  score <$> kps' = score <$> kps ->
  drawSkeleton kps pairs = Normal tt ->
  Simple.drawSkeleton kps' pairs = Normal tt.
Proof.
  intros Hsc. induction pairs as [|[i j] pairs IH]; simpl; [reflexivity|].
  pose proof (lookup_same_scores kps kps' i Hsc) as Hi.
  pose proof (lookup_same_scores kps kps' j Hsc) as Hj.
  destruct (kps !! i) as [kp1|]; [|discriminate].
  destruct (kps' !! i) as [kp1'|]; [|contradiction].
  rewrite Hi.
  destruct (score kp1 >? Num (4 # 10))%js eqn:H4.
  - rewrite (above_04_above_03 _ H4).
    destruct (kps !! j) as [kp2|]; [|discriminate].
    destruct (kps' !! j) as [kp2'|]; [|contradiction]. exact IH.
  - destruct (score kp1 >? Num (3 # 10))%js; [|exact IH].
    destruct (kps !! j) as [kp2|]; [|discriminate]. exact IH.
Qed.

Lemma detect_simple (pairs : list (nat * nat)) (c c1 : Component) (n : Z)
    (f : Frame) (calls : list Callback) :
  detect pairs c f = (c1, calls, Normal tt) ->
  exists n1 calls',
    Simple.detect pairs n f = (n1, calls', Normal tt)
    /\ (n <= n1)%Z
    /\ (repCount c1 - repCount c <= n1 - n)%Z.
Proof.
  destruct f as [ps r]. unfold detect, Simple.detect; simpl.
  destruct ps as [|currentPose rest]; simpl.
  - intros [= <- <-]. do 2 eexists. split; [reflexivity|]. lia.
  - destruct (drawPose pairs _) as [[]|e] eqn:Hdraw; [|discriminate].
    unfold Simple.drawPose.
    rewrite (drawSkeleton_simple _ (keypoints currentPose) pairs
               (eq_sym (smoothPoseMovement_scores _ _ _)) Hdraw).
    destruct (detectRepMovement_cases (repCount c) currentPose r)
      as [[e ->]|[->|[-> [_ Hr]]]]; [discriminate| |].
    + intros [= <- <-]. simpl.
      destruct (r <? Num (2 # 100))%js; do 2 eexists;
        (split; [reflexivity|]); lia.
    + intros [= <- <-]. simpl.
      rewrite (below_0015_below_002 _ Hr). do 2 eexists.
      split; [reflexivity|]. lia.
Qed.

(** On the same frames and draws, whenever the component with the
    confidence gate runs to the end, so does the one of part_002, and it
    counts at least as many reps: every frame the former counts, the
    latter counts too. *)
Theorem gated_component_counts_no_more (pairs : list (nat * nat))
    (frames : list Frame) (c c' : Component) (n : Z)
    (calls : list Callback) :
  run pairs c frames = (c', calls, Normal tt) ->
  exists n' calls',
    Simple.run pairs n frames = (n', calls', Normal tt)
    /\ (repCount c' - repCount c <= n' - n)%Z.
Proof.
  revert c c' n calls.
  induction frames as [|f frames IH]; intros c c' n calls Hrun;
    simpl in Hrun |- *.
  - injection Hrun as <- <-. do 2 eexists. split; [reflexivity|]. lia.
  - destruct (detect pairs c f) as [[c1 calls1] [[]|e]] eqn:Hd; [|discriminate].
    destruct (run pairs c1 frames) as [[c2 calls2] r2] eqn:Hr.
    injection Hrun as <- <- ->.
    destruct (detect_simple pairs c c1 n f calls1 Hd)
      as (n1 & calls1' & -> & Hn & Hstep).
    destruct (IH c1 c2 n1 calls2 Hr) as (n2 & calls2' & -> & Hrest).
    do 2 eexists. split; [reflexivity|]. lia.
Qed.

Lemma gated_component_witness :
  exists n' calls',
    Simple.run MoveNet_adjacentPairs 0 (heldFrames [1 # 100; 18 # 1000])
    = (n', calls', Normal tt)
    /\ (repCount (run MoveNet_adjacentPairs mount
                      (heldFrames [1 # 100; 18 # 1000])).1.1
        - repCount mount <= n' - 0)%Z.
Proof.
  apply (gated_component_counts_no_more MoveNet_adjacentPairs
           (heldFrames [1 # 100; 18 # 1000]) mount _ 0
           (run MoveNet_adjacentPairs mount
                (heldFrames [1 # 100; 18 # 1000])).1.2).
  vm_compute. reflexivity.
Defined.

Lemma simple_detect_cases (pairs : list (nat * nat)) (n : Z) (f : Frame) :
  let res := Simple.detect pairs n f in
  (res.1.1 = n /\ repEvents res.1.2 = []
   /\ (res.2 = Normal tt -> Simple.counted f = false))
  \/ (res.1.1 = (n + 1)%Z /\ repEvents res.1.2 = [(n + 1)%Z]
      /\ Simple.counted f = true /\ res.2 = Normal tt).
Proof.
  destruct f as [ps r]. unfold Simple.detect, Simple.counted; simpl.
  destruct ps as [|pose rest]; simpl; [left; auto|].
  destruct (Simple.drawPose pairs pose) as [[]|e]; simpl.
  - destruct (r <? Num (2 # 100))%js; simpl; [right; auto | left; auto].
  - left. repeat split. discriminate.
Qed.

(** ** [PosePage] *)

Lemma deliver_repCount (calls : list Callback) :
  forall s : PosePage.State,
  PosePage.repCount (foldl PosePage.deliver s calls)
  = default (PosePage.repCount s) (last (repEvents calls)).
Proof.
  induction calls as [|call calls IH]; intros s; simpl; [reflexivity|].
  rewrite IH. destruct call as [p|sc|k]; simpl; try reflexivity.
  destruct (repEvents calls) as [|k' ks]; [reflexivity|].
  rewrite last_cons_cons.
  destruct (last (k' :: ks)) eqn:E; [reflexivity|].
  apply last_None in E. discriminate E.
Qed.

Lemma deliver_app (s : PosePage.State) (a b : list Callback) :
  foldl PosePage.deliver s (a ++ b)
  = foldl PosePage.deliver (foldl PosePage.deliver s a) b.
Proof. apply foldl_app. Qed.

Lemma page_follows_run (pairs : list (nat * nat)) (frames : list Frame) :
  forall (c : Component) (s : PosePage.State),
  PosePage.repCount s = repCount c ->
  PosePage.repCount (foldl PosePage.deliver s (run pairs c frames).1.2)
  = repCount (run pairs c frames).1.1.
Proof.
  induction frames as [|f frames IH]; intros c s Hs; simpl; [exact Hs|].
  pose proof (detect_repCount pairs c f) as Hd. simpl in Hd.
  assert (Hstep : PosePage.repCount
                    (foldl PosePage.deliver s (detect pairs c f).1.2)
                  = repCount (detect pairs c f).1.1).
  { rewrite deliver_repCount.
    destruct Hd as [[-> ->]|(-> & -> & _)]; simpl; [exact Hs | reflexivity]. }
  specialize (IH (detect pairs c f).1.1 _ Hstep).
  destruct (detect pairs c f) as [[c1 calls1] [[]|e]]; simpl in *;
    [|exact Hstep].
  destruct (run pairs c1 frames) as [[c2 calls2] r2]; simpl in *.
  rewrite deliver_app. exact IH.
Qed.

Lemma page_follows_simple_run (pairs : list (nat * nat))
    (frames : list Frame) :
  forall (n : Z) (s : PosePage.State),
  PosePage.repCount s = n ->
  PosePage.repCount (foldl PosePage.deliver s (Simple.run pairs n frames).1.2)
  = (Simple.run pairs n frames).1.1.
Proof.
  induction frames as [|f frames IH]; intros n s Hs; simpl; [exact Hs|].
  pose proof (simple_detect_cases pairs n f) as Hd. simpl in Hd.
  assert (Hstep : PosePage.repCount
                    (foldl PosePage.deliver s (Simple.detect pairs n f).1.2)
                  = (Simple.detect pairs n f).1.1).
  { rewrite deliver_repCount.
    destruct Hd as [(-> & -> & _)|(-> & -> & _)]; simpl;
      [exact Hs | reflexivity]. }
  specialize (IH (Simple.detect pairs n f).1.1 _ Hstep).
  destruct (Simple.detect pairs n f) as [[n1 calls1] [[]|e]]; simpl in *;
    [|exact Hstep].
  destruct (Simple.run pairs n1 frames) as [[n2 calls2] r2]; simpl in *.
  rewrite deliver_app. exact IH.
Qed.

(** The count [PosePage] shows is the count the component holds: after
    the callbacks of any run of a freshly mounted component, of either
    [PoseDetection], however the run ends, the page's [repCount] equals the
    component's. *)
Theorem page_shows_the_component_count (pairs : list (nat * nat))
    (frames : list Frame) :
  PosePage.repCount (PosePage.after (run pairs mount frames).1.2)
  = repCount (run pairs mount frames).1.1
  /\ PosePage.repCount (PosePage.after (Simple.run pairs 0 frames).1.2)
     = (Simple.run pairs 0 frames).1.1.
Proof.
  split.
  - apply page_follows_run. reflexivity.
  - apply page_follows_simple_run. reflexivity.
Qed.

(** ** The bearer token between client and server *)

Section Bearer.

Variable JWT_SECRET : string.
Variable jwt_verify : string -> string -> option Z.
Variable getUser getUserAgain : Z -> Server.Fetched.

Lemma substring_whole (s : string) :
  String.substring 0 (String.length s) s = s.
Proof. induction s as [|a s IH]; simpl; [reflexivity | rewrite IH; reflexivity]. Qed.

Lemma substringFrom_bearer (token : string) :
  Server.substringFrom 7 ("Bearer " +:+ token) = token.
Proof. unfold Server.substringFrom. simpl. rewrite Nat.sub_0_r. apply substring_whole. Qed.

Lemma prefix_append (p s : string) :
  String.prefix p s = true ->
  s = p +:+ Server.substringFrom (String.length p) s.
Proof.
  revert s. induction p as [|a p IH]; intros s H.
  - unfold Server.substringFrom. simpl. rewrite Nat.sub_0_r, substring_whole.
    reflexivity.
  - destruct s as [|b s]; simpl in H; [discriminate|].
    destruct (Ascii.ascii_dec a b) as [->|]; [|discriminate].
    simpl. f_equal. rewrite (IH s H) at 1. reflexivity.
Qed.

Lemma bearer_header_accepted (token : string) :
  String.eqb ("Bearer " +:+ token) "" = false
  /\ String.prefix "Bearer " ("Bearer " +:+ token) = true.
Proof. split; [reflexivity | apply String.prefix_correct; simpl; destruct token; reflexivity]. Qed.

Lemma middleware_reads_token_aux (token : string) :
  Server.authMiddleware JWT_SECRET jwt_verify getUser
    (Some (AuthProvider.authorizationHeader token))
  = match jwt_verify token JWT_SECRET with
    | None => Server.respond 401 "Invalid token"
    | Some userId =>
        match getUser userId with
        | Server.failed => Server.respond 401 "Invalid token"
        | Server.missing => Server.respond 401 "User not found"
        | Server.found user =>
            Server.next {| Server.principal_id := Server.id user;
                           Server.principal_email := Server.email user |}
        end
    end.
Proof.
  unfold Server.authMiddleware, AuthProvider.authorizationHeader.
  destruct (bearer_header_accepted token) as [-> ->].
  rewrite substringFrom_bearer. reflexivity.
Qed.

(** The header the client builds from a token is taken apart by the
    middleware into that very token: the request is decided by
    [jwt.verify] of the token and the lookup of its user alone. *)
Theorem middleware_reads_the_client_token (token : string) :
  Server.authMiddleware JWT_SECRET jwt_verify getUser
    (Some (AuthProvider.authorizationHeader token))
  = match jwt_verify token JWT_SECRET with
    | None => Server.respond 401 "Invalid token"
    | Some userId =>
        match getUser userId with
        | Server.failed => Server.respond 401 "Invalid token"
        | Server.missing => Server.respond 401 "User not found"
        | Server.found user =>
            Server.next {| Server.principal_id := Server.id user;
                           Server.principal_email := Server.email user |}
        end
    end.
Proof. apply middleware_reads_token_aux. Qed.

(** The middleware hands a request on only for a header of the form
    "Bearer <token>" whose token verifies to the id of a user the store
    finds, and [req.user] is then that stored user's id and email; every
    other request is answered with status 401. *)
Theorem middleware_admits_only_verified_users (authorization : option string) :
  (forall principal : Server.Principal,
     Server.authMiddleware JWT_SECRET jwt_verify getUser authorization
     = Server.next principal
     <-> exists (token : string) (userId : Z) (user : Server.User),
           authorization = Some ("Bearer " +:+ token)
           /\ jwt_verify token JWT_SECRET = Some userId
           /\ getUser userId = Server.found user
           /\ principal = {| Server.principal_id := Server.id user;
                             Server.principal_email := Server.email user |})
  /\ ((exists principal,
         Server.authMiddleware JWT_SECRET jwt_verify getUser authorization
         = Server.next principal)
      \/ (exists message,
            Server.authMiddleware JWT_SECRET jwt_verify getUser authorization
            = Server.respond 401 message)).
Proof.
  split.
  - intros principal. split.
    + unfold Server.authMiddleware.
      destruct authorization as [authHeader|]; [|discriminate].
      destruct (String.eqb authHeader ""); [discriminate|]. simpl.
      destruct (String.prefix "Bearer " authHeader) eqn:Hp; [|discriminate].
      simpl.
      destruct (jwt_verify _ JWT_SECRET) as [userId|] eqn:Hv; [|discriminate].
      destruct (getUser userId) as [user| |] eqn:Hu; try discriminate.
      intros [= <-].
      exists (Server.substringFrom 7 authHeader), userId, user.
      split; [f_equal; exact (prefix_append "Bearer " authHeader Hp)|].
      auto.
    + intros (token & userId & user & -> & Hv & Hu & ->).
      change (Some ("Bearer " +:+ token))
        with (Some (AuthProvider.authorizationHeader token)).
      rewrite middleware_reads_token_aux, Hv, Hu. reflexivity.
  - unfold Server.authMiddleware.
    destruct authorization as [authHeader|]; [|right; eauto].
    destruct (String.eqb authHeader "" || negb (String.prefix "Bearer " authHeader));
      [right; eauto|].
    destruct (jwt_verify _ JWT_SECRET) as [userId|]; [|right; eauto].
    destruct (getUser userId) as [user| |]; [left|right|right]; eauto.
Qed.

End Bearer.

Lemma middleware_admits_witness :
  Server.authMiddleware "secret"
    (fun token _ => if String.eqb token "good" then Some 7%Z else None)
    (fun userId => Server.found (Server.mkUser userId "a@b.c" "hash" None None))
    (Some "Bearer good")
  = Server.next {| Server.principal_id := 7;
                   Server.principal_email := "a@b.c" |}.
Proof.
  apply (middleware_admits_only_verified_users "secret"
           (fun token _ => if String.eqb token "good" then Some 7%Z else None)
           (fun userId =>
              Server.found (Server.mkUser userId "a@b.c" "hash" None None))
           (Some "Bearer good")).
  exists "good", 7%Z, (Server.mkUser 7 "a@b.c" "hash" None None).
  repeat split; reflexivity.
Defined.

(** ** [AuthProvider] *)

Lemma step_keeps_cells_equal (s : AuthProvider.State)
    (a : AuthProvider.Action) :
  AuthProvider.localStorage_token s = AuthProvider.tokenState s ->
  AuthProvider.localStorage_token (AuthProvider.step s a)
  = AuthProvider.tokenState (AuthProvider.step s a).
Proof.
  intros Hs. destruct a as [data|data| |server]; simpl; try reflexivity.
  destruct s as [stored state]. simpl in Hs. subst stored.
  unfold AuthProvider.queryFn; simpl.
  destruct state as [t|]; [|reflexivity].
  destruct (String.eqb t ""); [reflexivity|].
  destruct (negb (Http.ok (server (AuthProvider.authorizationHeader t))));
    [|reflexivity].
  destruct (Http.status (server (AuthProvider.authorizationHeader t)) =? 401)%Z;
    reflexivity.
Qed.

(** The provider keeps its two copies of the token equal: after any
    sequence of successful logins and registrations, logouts and user
    queries with any answers, the [token] state is what [localStorage]
    holds under ['token']; after a logout both are empty and after a
    successful login both hold the token of the response. *)
Theorem token_state_matches_localStorage (stored : option string)
    (actions : list AuthProvider.Action) :
  let s := foldl AuthProvider.step (AuthProvider.mount stored) actions in
  AuthProvider.localStorage_token s = AuthProvider.tokenState s
  /\ AuthProvider.tokenState (AuthProvider.step s AuthProvider.loggedOut)
     = None
  /\ forall data,
       AuthProvider.tokenState
         (AuthProvider.step s (AuthProvider.loginSucceeded data))
       = Some (AuthProvider.token data).
Proof.
  intros s. split; [|split; [reflexivity | intros data; reflexivity]].
  unfold s. clear s.
  assert (H : forall s0,
             AuthProvider.localStorage_token s0 = AuthProvider.tokenState s0 ->
             AuthProvider.localStorage_token (foldl AuthProvider.step s0 actions)
             = AuthProvider.tokenState (foldl AuthProvider.step s0 actions)).
  { induction actions as [|a actions IH]; intros s0 Hs0; simpl; [exact Hs0|].
    apply IH, step_keeps_cells_equal, Hs0. }
  apply H. reflexivity.
Qed.


Section EndToEnd.

Variable JWT_SECRET : string.
Variable jwt_verify : string -> string -> option Z.
Variable getUser getUserAgain : Z -> Server.Fetched.

(** What the server reads as [req.headers.authorization] when the client
    sets the header to the given string. *)
Variable transport : string -> string.

(** A header made of "Bearer " and a token of token characters arrives as
    it was sent (other values may not: leading and trailing whitespace is
    stripped on the way). *)
Hypothesis transport_bearer :
  forall token : string,
    Token.wellFormed token = true ->
    transport ("Bearer " +:+ token) = "Bearer " +:+ token.

(** The server as the client's query meets it: the route [GET /api/user]
    answering the request whose Authorization header the client set. *)
Let server (authorization : string) : Http.Reply :=
  Server.getUserRoute JWT_SECRET jwt_verify getUser getUserAgain
                      (Some (transport authorization)).

(** The user query against the user route, for a client holding a
    non-empty token of token characters: when the middleware turns the
    token down (it does not verify, or its user is missing or the lookup
    fails) the answer is 401 and the client drops the token from both
    cells; when the middleware admits it, the client keeps the token, and
    gets the user's public fields if the handler's own lookup finds the
    user, and the error "Failed to fetch user" if that lookup misses (404)
    or fails (500). *)
Theorem user_query_against_the_route (s : AuthProvider.State)
    (token : string) :
  AuthProvider.tokenState s = Some token ->
  token <> "" ->
  Token.wellFormed token = true ->
  AuthProvider.queryFn server s
  = match jwt_verify token JWT_SECRET with
    | None => (AuthProvider.logout s, inr "Unauthorized")
    | Some userId =>
        match getUser userId with
        | Server.found user =>
            match getUserAgain (Server.id user) with
            | Server.found again =>
                (s, inl (Http.userBody
                           {| Http.id := Server.id again;
                              Http.email := Server.email again;
                              Http.firstName := Server.firstName again;
                              Http.lastName := Server.lastName again |}))
            | _ => (s, inr "Failed to fetch user")
            end
        | _ => (AuthProvider.logout s, inr "Unauthorized")
        end
    end.
Proof.
  intros Ht Hne Hwf. unfold AuthProvider.queryFn. rewrite Ht.
  assert (He : String.eqb token "" = false)
    by (apply String.eqb_neq; exact Hne).
  rewrite He. unfold server, Server.getUserRoute.
  unfold AuthProvider.authorizationHeader.
  rewrite (transport_bearer token Hwf).
  change ("Bearer " +:+ token) with (AuthProvider.authorizationHeader token).
  rewrite middleware_reads_token_aux.
  destruct (jwt_verify token JWT_SECRET) as [userId|]; [|reflexivity].
  destruct (getUser userId) as [user| |]; try reflexivity.
  simpl. destruct (getUserAgain (Server.id user)) as [again| |]; reflexivity.
Qed.

End EndToEnd.

Lemma user_query_witness :
  AuthProvider.queryFn
    (fun authorization =>
       Server.getUserRoute "secret"
         (fun token _ => if String.eqb token "good" then Some 7%Z else None)
         (fun userId =>
            Server.found (Server.mkUser userId "a@b.c" "hash" None None))
         (fun _ => Server.missing)
         (Some authorization))
    (AuthProvider.mount (Some "stale.token"))
  = (AuthProvider.logout (AuthProvider.mount (Some "stale.token")),
     inr "Unauthorized").
Proof.
  apply (user_query_against_the_route "secret"
           (fun token _ => if String.eqb token "good" then Some 7%Z else None)
           (fun userId =>
              Server.found (Server.mkUser userId "a@b.c" "hash" None None))
           (fun _ => Server.missing)
           (fun header => header) (fun _ _ => eq_refl)
           (AuthProvider.mount (Some "stale.token")) "stale.token").
  - reflexivity.
  - discriminate.
  - reflexivity.
Defined.

(** * Rep counting, smoothing factor and score on the code as it runs *)

(** C2, evaluated on the code: a still pose whose wrists stay at height
    50, strictly between the thresholds 20 and 80, is counted: with the
    draw 0.01 a freshly mounted component goes from 0 to 1 and calls
    [onRepCount(1)], and the component it leaves goes on the same frame
    from 1 to 2, though the trajectory has crossed neither threshold. *)
Theorem C2_in_band_frames_are_counted :
  let pose := still 100 50 (9 # 10) 17 in
  let frame := frameOf pose (1 # 100) in
  let first := detect MoveNet_adjacentPairs mount frame in
  let second := detect MoveNet_adjacentPairs first.1.1 frame in
  (exists v, avgY pose = Some v /\ Spec.inBand 20 80 v = true)
  /\ repCount first.1.1 = 1%Z /\ repEvents first.1.2 = [1%Z]
  /\ repCount second.1.1 = 2%Z /\ repEvents second.1.2 = [2%Z].
Proof.
  split; [eexists; split; vm_compute; reflexivity|].
  repeat split; vm_compute; reflexivity.
Qed.

(** ** The smoothing factor *)






(** ** The score as it is computed *)







(** ** The factor as an argument of the smoother *)

(** With factor 1 [smoothPoseMovement] returns the place of the previous
    pose, not of any earlier one: at every index both poses have, a
    keypoint with finite current coordinates comes out at the previous
    keypoint's x and y where both confidences exceed 0.3 and unchanged
    elsewhere, always with the current confidence. *)
Theorem factor_one_returns_the_previous_place (currentPose previousPose : Pose)
    (i : nat) (kp prevKp : Keypoint) :
  keypoints currentPose !! i = Some kp ->
  keypoints previousPose !! i = Some prevKp ->
  JS.finite (x kp) -> JS.finite (y kp) ->
  exists outKp : Keypoint,
    keypoints (smoothPoseMovement (Num 1) currentPose (Some previousPose)) !! i
    = Some outKp
    /\ score outKp = score kp
    /\ if (score kp >? Num (3 # 10))%js && (score prevKp >? Num (3 # 10))%js
       then JS.same (x outKp) (x prevKp) /\ JS.same (y outKp) (y prevKp)
       else outKp = kp.
Proof.
  intros Hkp Hprev Hx Hy.
  exists (smoothKeypoint (Num 1) previousPose i kp).
  split; [simpl; rewrite list_lookup_imap, Hkp; reflexivity|].
  unfold smoothKeypoint. rewrite Hprev.
  destruct ((score kp >? Num (3 # 10))%js
            && (score prevKp >? Num (3 # 10))%js); simpl.
  - split; [reflexivity|]. split; apply blend_factor_one; assumption.
  - auto.
Qed.

Lemma factor_one_witness :
  exists outKp : Keypoint,
    keypoints (smoothPoseMovement (Num 1) (still 20 20 (9 # 10) 17)
                                  (Some (still 10 10 (9 # 10) 17))) !! 0%nat
    = Some outKp
    /\ score outKp = Num (9 # 10)
    /\ JS.same (x outKp) (Num 10) /\ JS.same (y outKp) (Num 10).
Proof.
  apply (factor_one_returns_the_previous_place (still 20 20 (9 # 10) 17)
           (still 10 10 (9 # 10) 17) 0 (kpAt 20 20 (9 # 10))
           (kpAt 10 10 (9 # 10))); try reflexivity; exact I.
Defined.
